(** * easybuild.framework.easyconfig.format.version

    A shallow embedding of [version.py]: the loose version value and its
    comparison ([EasyVersion]), the version-expression grammar and the
    ordered store ([VersionOperator]), the toolchain grammar
    ([ToolchainOperator]) and the configuration walker ([ConfigObjVersion]).

    The module is Python 2 code.  Strings are byte strings ([string] of
    [ascii]), integers are unbounded ([Z]), an exception is an explicit
    result, and the logger is a writer: a computation returns its outcome
    together with the messages it handed to [self.log]. *)

From Stdlib Require Import String Ascii List ZArith NArith Lia Bool Permutation.
Import ListNotations.

Local Open Scope string_scope.
Local Open Scope list_scope.

(** ** Character classes of Python 2's [re] on byte strings (no LOCALE,
    no UNICODE flag). *)

Definition in_range (lo hi c : ascii) : bool :=
  ((N_of_ascii lo <=? N_of_ascii c) && (N_of_ascii c <=? N_of_ascii hi))%N.

(** [\d] *)
Definition is_digit (c : ascii) : bool := in_range "0" "9" c.
(** [[a-z]] *)
Definition is_lower (c : ascii) : bool := in_range "a" "z" c.
Definition is_upper (c : ascii) : bool := in_range "A" "Z" c.
(** [\w] is [[a-zA-Z0-9_]]; [\W] is its complement. *)
Definition is_word (c : ascii) : bool :=
  is_digit c || is_lower c || is_upper c || (c =? "_")%char.
(** [\s] is [[ \t\n\r\f\v]]; [\S] is its complement. *)
Definition is_space (c : ascii) : bool :=
  existsb (fun n => (N_of_ascii c =? n)%N) [32; 9; 10; 13; 12; 11]%N.

Definition snoc (s : string) (c : ascii) : string := s ++ String c "".

Fixpoint forallb_string (p : ascii -> bool) (s : string) : bool :=
  match s with
  | "" => true
  | String c s' => p c && forallb_string p s'
  end.

(** ** distutils.version.LooseVersion, the base class of [EasyVersion]

    The class is part of the Python 2 standard library;
    [EasyVersion] inherits its constructor, [parse] and [__cmp__]. *)
Module LooseVersion.

(** A component of [self.version]: an [int] or a [str]. *)
Inductive component : Type :=
| CInt (n : Z)
| CStr (s : string).

(** The match of [component_re = (\d+ | [a-z]+ | \.)] that is being
    extended while the text is scanned. *)
Inductive run : Type :=
| NoRun
| DigitRun (m : string)
| LowerRun (m : string).

(** [component_re.split(vstring)]: the texts between the matches and,
    the pattern being one capturing group, the matches themselves.
    [gap] is the text since the last match, [cur] the current match. *)
Fixpoint component_split (vstring gap : string) (cur : run) : list string :=
  match vstring with
  | "" =>
      match cur with
      | NoRun => [gap]
      | DigitRun m | LowerRun m => [gap; m; ""]
      end
  | String c rest =>
      let start g :=
        if is_digit c then component_split rest g (DigitRun (String c ""))
        else if is_lower c then component_split rest g (LowerRun (String c ""))
        else if (c =? ".")%char then g :: "." :: component_split rest "" NoRun
        else component_split rest (snoc g c) NoRun in
      match cur with
      | NoRun => start gap
      | DigitRun m =>
          if is_digit c then component_split rest gap (DigitRun (snoc m c))
          else gap :: m :: start ""
      | LowerRun m =>
          if is_lower c then component_split rest gap (LowerRun (snoc m c))
          else gap :: m :: start ""
      end
  end.

Definition digit_val (c : ascii) : Z := Z.of_N (N_of_ascii c) - 48.

Fixpoint int_of_digits (acc : Z) (s : string) : Z :=
  match s with
  | "" => acc
  | String c s' => int_of_digits (10 * acc + digit_val c) s'
  end.

(** [int(x)] on a piece of the split: a piece is a run of digits or holds
    no digit at all, and [int] raises [ValueError] on the latter
    ([None] here). *)
Definition py_int (x : string) : option Z :=
  match x with
  | "" => None
  | _ => if forallb_string is_digit x then Some (int_of_digits 0 x) else None
  end.

(** [filter(lambda x: x and x != '.', ...)] *)
Definition keep (x : string) : bool :=
  negb (x =? "") && negb (x =? ".").

(** [try: components[i] = int(obj) except ValueError: pass] *)
Definition to_component (x : string) : component :=
  match py_int x with
  | Some n => CInt n
  | None => CStr x
  end.

(** [LooseVersion.parse]: the value of [self.version]. *)
Definition parse (vstring : string) : list component :=
  map to_component (filter keep (component_split vstring "" NoRun)).

(** Python 2's [cmp] on two components: integers by value, strings
    byte-wise, and an integer below every string. *)
Definition cmp_component (a b : component) : comparison :=
  match a, b with
  | CInt x, CInt y => Z.compare x y
  | CInt _, CStr _ => Lt
  | CStr _, CInt _ => Gt
  | CStr x, CStr y => String.compare x y
  end.

(** Python 2's [cmp] on two lists. *)
Fixpoint cmp_list (l1 l2 : list component) : comparison :=
  match l1, l2 with
  | [], [] => Eq
  | [], _ :: _ => Lt
  | _ :: _, [] => Gt
  | a :: l1', b :: l2' =>
      match cmp_component a b with
      | Eq => cmp_list l1' l2'
      | c => c
      end
  end.

End LooseVersion.

(** ** class EasyVersion(LooseVersion) *)

(** An instance on which [parse] has run: [self.vstring] and
    [self.version]. *)
Record EasyVersion : Type := mkEasyVersion {
  vstring : string;
  version : list LooseVersion.component
}.

(** [EasyVersion(vstring)]: [LooseVersion.__init__] parses only [if vstring:].
    For the empty string the instance has neither attribute ([None]). *)
Definition EasyVersion_init (vstr : string) : option EasyVersion :=
  match vstr with
  | "" => None
  | _ => Some (mkEasyVersion vstr (LooseVersion.parse vstr))
  end.


(** [__cmp__]: [cmp(self.version, other.version)]. *)
Definition EasyVersion_cmp (a b : EasyVersion) : comparison :=
  LooseVersion.cmp_list (version a) (version b).

(** The functions of the [operator] module on two instances, which go
    through [__cmp__]. *)
Definition op_eq (a b : EasyVersion) : bool :=
  match EasyVersion_cmp a b with Eq => true | _ => false end.
Definition op_ne (a b : EasyVersion) : bool :=
  match EasyVersion_cmp a b with Eq => false | _ => true end.
Definition op_gt (a b : EasyVersion) : bool :=
  match EasyVersion_cmp a b with Gt => true | _ => false end.
Definition op_ge (a b : EasyVersion) : bool :=
  match EasyVersion_cmp a b with Lt => false | _ => true end.
Definition op_lt (a b : EasyVersion) : bool :=
  match EasyVersion_cmp a b with Lt => true | _ => false end.
Definition op_le (a b : EasyVersion) : bool :=
  match EasyVersion_cmp a b with Gt => false | _ => true end.


(** ** Outcomes, exceptions and the log *)

Inductive exn : Type :=
| AttributeError (msg : string)
| KeyError (key : string)
| TypeError (msg : string)
| NameError (msg : string)
| EasyBuildError (msg : string).

Inductive outcome (A : Type) : Type :=
| Ok (a : A)
| Raise (e : exn).
Arguments Ok {A} a.
Arguments Raise {A} e.

Inductive level : Type := DEBUG | WARNING | ERROR.

(** A call of [self.log.<level>(message)].  A message keeps the text of the
    format and those arguments that are texts; a dictionary or a pattern
    object, whose rendering is not fixed by this module, appears as [{...}]. *)
Record entry : Type := mkEntry { lvl : level; message : string }.

(** A computation that logs and may raise. *)
Definition W (A : Type) : Type := (outcome A * list entry)%type.

Definition ret {A} (a : A) : W A := (Ok a, []).
Definition raise {A} (e : exn) : W A := (Raise e, []).
Definition bind {A B} (m : W A) (f : A -> W B) : W B :=
  match m with
  | (Ok a, l) => let (r, l') := f a in (r, l ++ l')
  | (Raise e, l) => (Raise e, l)
  end.
Definition log (lv : level) (msg : string) : W unit := (Ok tt, [mkEntry lv msg]).

Notation "x <- m ;; k" := (bind m (fun x => k))
  (at level 61, m at next level, right associativity).
Notation "m ;;; k" := (bind m (fun _ => k))
  (at level 61, right associativity).

Definition result {A} (m : W A) : outcome A := fst m.
Definition logged {A} (m : W A) : list entry := snd m.

(** ** The fragment of Python's [re] that the module uses

    A pattern text is kept as its syntax tree.  Matching is the
    backtracking search of [re]: alternatives in order, greedy
    repetition and option, groups set when they close and restored when
    the search backtracks. *)
Module Regex.

Inductive regex : Type :=
| Empty                              (* the empty pattern *)
| Chr (c : ascii)                    (* a literal, or escaped, character *)
| Cls (p : ascii -> bool)            (* a character set or class *)
| Cat (r1 r2 : regex)
| Alt (r1 r2 : regex)                (* r1|r2 *)
| Opt (r : regex)                    (* r? *)
| StarCls (p : ascii -> bool)        (* a class followed by * *)
| Grp (name : string) (r : regex)    (* (?P<name>r) *)
| Bol                                (* ^ *)
| Eol.                               (* $ *)

(** The named groups that took part in the match, latest first. *)
Definition caps : Type := list (string * string).

Definition cont : Type := nat -> string -> caps -> option caps.

Fixpoint star (p : ascii -> bool) (k : cont) (pos : nat) (s : string)
    (c : caps) : option caps :=
  match s with
  | String a s' =>
      if p a then
        match star p k (S pos) s' c with
        | Some x => Some x
        | None => k pos s c
        end
      else k pos s c
  | "" => k pos s c
  end.

(** [rmatch r k pos s c]: match [r] at offset [pos], where [s] is the
    rest of the text, then go on with [k]. *)
Fixpoint rmatch (r : regex) (k : cont) (pos : nat) (s : string) (c : caps)
    : option caps :=
  match r with
  | Empty => k pos s c
  | Chr a =>
      match s with
      | String b s' => if (a =? b)%char then k (S pos) s' c else None
      | "" => None
      end
  | Cls p =>
      match s with
      | String b s' => if p b then k (S pos) s' c else None
      | "" => None
      end
  | Cat r1 r2 => rmatch r1 (rmatch r2 k) pos s c
  | Alt r1 r2 =>
      match rmatch r1 k pos s c with
      | Some x => Some x
      | None => rmatch r2 k pos s c
      end
  | Opt r1 =>
      match rmatch r1 k pos s c with
      | Some x => Some x
      | None => k pos s c
      end
  | StarCls p => star p k pos s c
  | Grp name r1 =>
      rmatch r1
        (fun pos' s' c' => k pos' s' ((name, substring 0 (pos' - pos) s) :: c'))
        pos s c
  | Bol => if (pos =? 0)%nat then k pos s c else None
  | Eol =>
      (* the end of the text, or just before a newline that ends it *)
      match s with
      | "" => k pos s c
      | String b "" => if (N_of_ascii b =? 10)%N then k pos s c else None
      | _ => None
      end
  end.

(** A match object: the pattern and the groups that were set. *)
Record match_object : Type := mkMatch { re : regex; groups : caps }.

Fixpoint search_from (r : regex) (pos : nat) (s : string) : option caps :=
  match rmatch r (fun _ _ c => Some c) pos s [] with
  | Some c => Some c
  | None =>
      match s with
      | String _ s' => search_from r (S pos) s'
      | "" => None
      end
  end.

(** [pattern.search(text)]: the first offset at which the pattern
    matches. *)
Definition search (r : regex) (text : string) : option match_object :=
  option_map (mkMatch r) (search_from r 0 text).

Fixpoint group_names (r : regex) : list string :=
  match r with
  | Cat r1 r2 | Alt r1 r2 => group_names r1 ++ group_names r2
  | Opt r1 => group_names r1
  | Grp name r1 => name :: group_names r1
  | _ => []
  end.

Fixpoint lookup {V} (key : string) (d : list (string * V)) : option V :=
  match d with
  | [] => None
  | (k, v) :: d' => if (k =? key)%string then Some v else lookup key d'
  end.

(** [m.groupdict()]: every named group of the pattern, with [None] for
    a group that took no part in the match. *)
Definition groupdict (m : match_object) : list (string * option string) :=
  map (fun name => (name, lookup name (groups m))) (group_names (re m)).

(** A text taken literally. *)
Fixpoint lit (s : string) : regex :=
  match s with
  | "" => Empty
  | String c s' => Cat (Chr c) (lit s')
  end.

(** ['|'.join(rs)] *)
Fixpoint alts (rs : list regex) : regex :=
  match rs with
  | [] => Empty
  | [r] => r
  | r :: rs' => Alt r (alts rs')
  end.

End Regex.

(** A dictionary from names to texts or [None], as [groupdict] returns
    it, in the order of its keys' first appearance. *)
Definition dict : Type := list (string * option string).

Fixpoint dict_set (key : string) (v : option string) (d : dict) : dict :=
  match d with
  | [] => [(key, v)]
  | (k, w) :: d' =>
      if (k =? key)%string then (k, v) :: d' else (k, w) :: dict_set key v d'
  end.

(** ** The logger

    [self.log] is what [fancylogger.getLogger] hands out: an instance of
    the logger class installed at that moment.  With [logging]'s own class
    [error] logs and returns; with [easybuild.tools.build_log.EasyBuildLog]
    it logs and raises [EasyBuildError].  Neither class belongs to this
    module, so [raiseError] says which one is in force. *)
Definition log_error (raiseError : bool) (msg : string) : W unit :=
  log ERROR msg ;;;
  if raiseError then raise (EasyBuildError msg) else ret tt.

(** ** class VersionOperator *)
Module VersionOperator.

Definition SEPARATOR : string := "_".

Definition OPERATOR : list (string * (EasyVersion -> EasyVersion -> bool)) :=
  [ ("==", op_eq); (">", op_gt); (">=", op_ge);
    ("<", op_lt); ("<=", op_le); ("!=", op_ne) ].

(** What [check] returns when called: a closure over the version and
    the operator function. *)
Definition check : Type := option string -> W bool.

(** The dictionary that [match] returns. *)
Record ver_dict : Type := mkVerDict {
  ver_str : string;
  operator : option string;
  check_fn : check;
  easyversion : EasyVersion
}.

(** An instance: [self.regexp] and [self.versions]. *)
Record instance : Type := mkInstance {
  regexp : Regex.regex;
  versions : list ver_dict
}.

(** A method: it reads and may change the instance, logs, and may
    raise; the instance survives a raise. *)
Definition M (A : Type) : Type :=
  instance -> (outcome A * instance * list entry)%type.

Definition mret {A} (a : A) : M A := fun self => (Ok a, self, []).
Definition mbind {A B} (m : M A) (f : A -> M B) : M B :=
  fun self =>
    match m self with
    | (Ok a, self', l) =>
        match f a self' with (r, self'', l') => (r, self'', l ++ l') end
    | (Raise e, self', l) => (Raise e, self', l)
    end.
Definition liftW {A} (w : W A) : M A := fun self => (fst w, self, snd w).
Definition get_self : M instance := fun self => (Ok self, self, []).
Definition set_versions (vs : list ver_dict) : M unit :=
  fun self => (Ok tt, mkInstance (regexp self) vs, []).

Notation "x <~ m ;; k" := (mbind m (fun x => k))
  (at level 61, m at next level, right associativity).

(** [[^%(sep)s\W]] with [sep = '_']: a word character other than the
    separator. *)
Definition not_sep_nonword (c : ascii) : bool :=
  negb ((c =? "_")%char || negb (is_word c)).

(** [\S] *)
Definition nonspace (c : ascii) : bool := negb (is_space c).

(** [reg_text]: [(?P<ver_str>[^_\W](?:\S*[^_\W])?)(?:_(?P<operator>ops))?],
    where [ops] joins the escaped operator symbols with [|]. *)
Definition reg_text (ops : list Regex.regex) : Regex.regex :=
  Regex.Cat
    (Regex.Grp "ver_str"
       (Regex.Cat (Regex.Cls not_sep_nonword)
          (Regex.Opt (Regex.Cat (Regex.StarCls nonspace)
                                (Regex.Cls not_sep_nonword)))))
    (Regex.Opt
       (Regex.Cat (Regex.lit SEPARATOR)
          (Regex.Grp "operator" (Regex.alts ops)))).

Section Methods.

(** Which logger class is in force. *)
Variable raiseError : bool.

(** [self.OPERATOR.keys()]: the symbols of [OPERATOR] in the order in
    which the dictionary lists them, which the module does not fix. *)
Variable keys : list string.

(** [_operator_regexp(begin_end=True)] *)
Definition _operator_regexp (begin_end : bool) : W Regex.regex :=
  (* an escaped symbol, such as [\<\=], reads as the symbol itself *)
  let ops := map Regex.lit keys in
  let reg_text := reg_text ops in
  let reg :=
    if begin_end then Regex.Cat Regex.Bol (Regex.Cat reg_text Regex.Eol)
    else reg_text in
  log DEBUG ("version_operator pattern '{...}' (begin_end: "
             ++ (if begin_end then "True" else "False") ++ ")")%string ;;;
  ret reg.

(** [_convert(ver_str)].  The constructor does not raise on a text,
    so the [except] clause is never entered; on the empty text it
    leaves the instance without [vstring], and rendering it for the
    debug message raises [AttributeError]. *)
Definition _convert (ver_str : option string) : W EasyVersion :=
  ver_str <- match ver_str with
             | None =>
                 let ver_str := "0.0.0" in
                 log WARNING
                   ("_convert: no version passed, set it to " ++ ver_str)%string ;;;
                 ret ver_str
             | Some ver_str => ret ver_str
             end ;;
  match EasyVersion_init ver_str with
  | Some version =>
      log DEBUG ("converted string " ++ ver_str ++ " to version "
                 ++ vstring version)%string ;;;
      ret version
  | None =>
      raise (AttributeError "EasyVersion instance has no attribute 'vstring'")
  end.

(** [_operator_check(ver_str=None, operator='==')] with both
    arguments given.  When the symbol is not a key of [OPERATOR] and
    the logger returns, the local [op] stays unbound and [check]
    raises [NameError] when it reaches it. *)
Definition _operator_check (ver_str operator : option string) : W check :=
  version <- _convert ver_str ;;
  op <- match operator with
        | Some symbol =>
            match Regex.lookup symbol OPERATOR with
            | Some f => ret (Some f)
            | None =>
                log_error raiseError
                  ("Failed to match specified operator " ++ symbol
                   ++ " to operator function")%string ;;;
                ret None
            end
        | None =>
            log_error raiseError
              "Failed to match specified operator None to operator function" ;;;
            ret None
        end ;;
  ret (fun test_ver_str =>
         test_ver <- _convert test_ver_str ;;
         match op with
         | Some f =>
             let res := f version test_ver in
             log DEBUG ("Check " ++ vstring version ++ " version "
                        ++ vstring test_ver ++ " using operator {...}: "
                        ++ (if res then "True" else "False"))%string ;;;
             ret res
         | None =>
             raise (NameError "free variable 'op' referenced before assignment in enclosing scope")
         end).

(** A call of [_operator_check] with keyword arguments taken from a dictionary: a keyword that is not a
    parameter raises [TypeError]; a parameter that is not given takes
    its default. *)
Definition _operator_check_kw (kwargs : dict) : W check :=
  match find (fun kv => negb ((fst kv =? "ver_str") || (fst kv =? "operator"))%string)
             kwargs with
  | Some (k, _) =>
      raise (TypeError ("_operator_check() got an unexpected keyword argument '"
                        ++ k ++ "'")%string)
  | None =>
      _operator_check
        (match Regex.lookup "ver_str" kwargs with Some v => v | None => None end)
        (match Regex.lookup "operator" kwargs with Some v => v | None => Some "==" end)
  end.

(** [match(ver_str)] *)
Definition match_ (ver_str : string) : M (option ver_dict) :=
  self <~ get_self ;;
  match Regex.search (regexp self) ver_str with
  | None =>
      _ <~ liftW (log_error raiseError
                    ("No version_match for version expression " ++ ver_str)%string) ;;
      mret None
  | Some res =>
      let ver_dict := Regex.groupdict res in
      let ver_dict := dict_set "ver_str" (Some ver_str) ver_dict in
      check_fn <~ liftW (_operator_check_kw ver_dict) ;;
      easyversion <~ liftW (match Regex.lookup "ver_str" ver_dict with
                            | Some v => _convert v
                            | None => raise (KeyError "ver_str")
                            end) ;;
      _ <~ liftW (log DEBUG ("version_match for version expression "
                             ++ ver_str ++ ": {...}")%string) ;;
      mret (Some (mkVerDict ver_str
                    (match Regex.lookup "operator" ver_dict with
                     | Some v => v
                     | None => None
                     end)
                    check_fn easyversion))
  end.

(** The [for] loop of [add]: the index of the first stored entry that
    the new version is strictly below, or [0] when there is none. *)
Fixpoint insert_index (new : EasyVersion) (idx : nat) (vs : list ver_dict)
    : W nat :=
  match vs with
  | [] => ret 0%nat
  | v_dict :: vs' =>
      if op_lt new (easyversion v_dict) then
        log DEBUG ("Found version " ++ vstring (easyversion v_dict)
                   ++ " (idx {...}) < then new to add " ++ vstring new)%string ;;;
        ret idx
      else insert_index new (S idx) vs'
  end.

(** [list.insert(idx, x)] *)
Definition list_insert {A} (idx : nat) (x : A) (l : list A) : list A :=
  firstn idx l ++ x :: skipn idx l.

(** [add(txt)] *)
Definition add (txt : string) : M unit :=
  version_dict <~ match_ txt ;;
  match version_dict with
  | None =>
      liftW (log_error raiseError
               ("version " ++ txt ++ " does not version_match")%string)
  | Some version_dict =>
      self <~ get_self ;;
      insert_idx <~ liftW (insert_index (easyversion version_dict) 0
                             (versions self)) ;;
      _ <~ liftW (log DEBUG "Insert version {...} in index {...}") ;;
      set_versions (list_insert insert_idx version_dict (versions self))
  end.

(** [__init__(txt=None)]: no instance comes out of a constructor that
    raises. *)
Definition init (txt : option string) : W instance :=
  regexp <- _operator_regexp true ;;
  let self := mkInstance regexp [] in
  match txt with
  | None => ret self
  | Some txt =>
      match add txt self with
      | (Ok _, self', l) => (Ok self', l)
      | (Raise e, _, l) => (Raise e, l)
      end
  end.

End Methods.

End VersionOperator.

(** ** class ToolchainOperator *)
Module ToolchainOperator.

Definition SEPARATOR : string := "_".

(** The attributes of an instance that hold a pattern, by name
    ([self.log] is the writer). *)
Definition instance : Type := list (string * Regex.regex).

(** What [toolchain_match] returns: the groups and [txt], and
    [check_fn] when it was set. *)
Record tc_dict : Type := mkTcDict {
  res : dict;
  check_fn : option VersionOperator.check
}.

Definition getattr (self : instance) (name : string) : W Regex.regex :=
  match Regex.lookup name self with
  | Some v => ret v
  | None =>
      raise (AttributeError ("'ToolchainOperator' object has no attribute '"
                             ++ name ++ "'")%string)
  end.

(** [d[key]] *)
Definition getitem (d : dict) (key : string) : W (option string) :=
  match Regex.lookup key d with
  | Some v => ret v
  | None => raise (KeyError key)
  end.

Section Methods.

Variable raiseError : bool.
Variable keys : list string.

(** [[x.NAME for x in all_tcs]], where [search_toolchain('')] lists
    the known toolchains.  The names go into the pattern as they are;
    they are taken to hold no character that [re] reads as syntax. *)
Variable tc_names : list string.

(** [_operator_regexp()] *)
Definition _operator_regexp : W Regex.regex :=
  log DEBUG "found toolchain names {...} " ;;;
  vop <- VersionOperator.init raiseError keys None ;;
  vop_pattern <- VersionOperator._operator_regexp keys false ;;
  (* (%s) around the joined names is a group without a name *)
  let toolchains := Regex.alts (map Regex.lit tc_names) in
  let toolchain_reg :=
    Regex.Cat Regex.Bol
      (Regex.Cat (Regex.Grp "toolchainname" toolchains)
         (Regex.Cat
            (Regex.Opt (Regex.Cat (Regex.lit SEPARATOR)
                          (Regex.Grp "toolchainversion" vop_pattern)))
            Regex.Eol)) in
  log DEBUG "toolchain_operator pattern {...} " ;;;
  ret toolchain_reg.

(** [__init__()]: sets [self.log] and [self.regexp]. *)
Definition init : W instance :=
  regexp <- _operator_regexp ;;
  ret [("regexp", regexp)].

(** [toolchain_match(txt)] *)
Definition toolchain_match (self : instance) (txt : string)
    : W (option tc_dict) :=
  toolchain_regexp <- getattr self "toolchain_regexp" ;;
  match Regex.search toolchain_regexp txt with
  | None =>
      log_error raiseError ("No toolchain_match for txt " ++ txt)%string ;;;
      ret None
  | Some r =>
      let res := Regex.groupdict r in
      let res := dict_set "txt" (Some txt) res in
      let versiontxt :=
        match Regex.lookup "toolchainversion" res with
        | Some v => v
        | None => None
        end in
      check_fn <- match versiontxt with
                  | None =>
                      log DEBUG ("No toolchainversion specified in txt "
                                 ++ txt ++ " ({...})")%string ;;;
                      ret None
                  | Some _ =>
                      vop <- VersionOperator.init raiseError keys None ;;
                      version <- getitem res "version" ;;
                      oper <- getitem res "operator" ;;
                      check_fn <- VersionOperator._operator_check_kw raiseError
                                    [("version", version); ("oper", oper)] ;;
                      ret (Some check_fn)
                  end ;;
      log DEBUG ("toolchain_match for txt " ++ txt ++ ": {...}")%string ;;;
      ret (Some (mkTcDict res check_fn))
  end.

End Methods.

End ToolchainOperator.

(** ** class ConfigObjVersion *)
Module ConfigObjVersion.

(** A section of the ConfigObj instance, and the instance: ordered
    mappings. *)
Definition section : Type := list (string * string).
Definition configobj : Type := list (string * section).

(** An attribute of an instance is a method of the class or a data
    attribute set by [__init__]. *)
Inductive attribute : Type :=
| Method (name : string)
| Data.

(** The class defines [__init__] and [set_configobj] and derives from
    [object]; [__init__] sets [log] and [configobj]. *)
Definition attributes : list (string * attribute) :=
  [ ("__init__", Method "__init__");
    ("set_configobj", Method "set_configobj");
    ("log", Data);
    ("configobj", Data) ].

(** [self.<name>] *)
Definition getattr (name : string) : W attribute :=
  match Regex.lookup name attributes with
  | Some a => ret a
  | None =>
      raise (AttributeError ("'ConfigObjVersion' object has no attribute '"
                             ++ name ++ "'")%string)
  end.

(** What a call returned, as far as [set_configobj] looks at it:
    [None] or something else. *)
Definition returned : Type := option unit.

(** A call [attr(text, section=name, ...)].  Neither method of the
    class takes the keyword [section], and a data attribute ([None], a
    logger) is not callable. *)
Definition call (a : attribute) : W returned :=
  match a with
  | Method name =>
      raise (TypeError (name ++ "() got an unexpected keyword argument 'section'")%string)
  | Data => raise (TypeError "object is not callable")
  end.

Definition has_key (key : string) (s : section) : bool :=
  existsb (fun kv => (fst kv =? key)%string) s.

Definition section_get (s : section) (key : string) : string :=
  match Regex.lookup key s with Some v => v | None => "" end.

Section Methods.

Variable raiseError : bool.

(** The body of the [for] loop of [set_configobj]. *)
Definition visit (name : string) (section : section) : W unit :=
  if (name =? "DEFAULT")%string then
    (if has_key "version" section then
       add_version <- getattr "add_version" ;;
       _ <- call add_version ;;
       ret tt
     else ret tt) ;;;
    (if has_key "toolchain" section then
       toolchain_match <- getattr "toolchain_match" ;;
       toolchain <- call toolchain_match ;;
       match toolchain with
       | None =>
           log_error raiseError
             ("Section " ++ name ++ " toolchain "
              ++ section_get section "toolchain"
              ++ " does not toolchain_match")%string
       | Some _ => ret tt
       end
     else ret tt)
  else
    add_toolchain <- getattr "add_toolchain" ;;
    toolchain <- call add_toolchain ;;
    match toolchain with
    | None =>
        add_version <- getattr "add_version" ;;
        version <- call add_version ;;
        match version with
        | None =>
            log DEBUG ("Name " ++ name
                       ++ " section {...} no version nor toolchain")%string
        | Some _ => ret tt
        end
    | Some _ => ret tt
    end.

(** [set_configobj(configobj)]: the loop over [configobj.items()]. *)
Fixpoint set_configobj (items : configobj) : W unit :=
  match items with
  | [] => ret tt
  | (name, section) :: rest =>
      visit name section ;;;
      set_configobj rest
  end.

(** [__init__(configobj=None)] *)
Definition init (configobj : option configobj) : W unit :=
  match configobj with
  | None => ret tt
  | Some c => set_configobj c
  end.

End Methods.

End ConfigObjVersion.

(** * Definitions for the statements

    What the theorems below speak of: the instances that [__init__]
    builds, the groups that a search finds, the store after a series of
    calls, and the measures used in the proofs. *)

(** The version of a text that parses (a text that is not empty). *)
Definition parsed (s : string) : EasyVersion :=
  mkEasyVersion s (LooseVersion.parse s).

(** The pattern that [_operator_regexp(begin_end=True)] returns. *)
Definition version_regexp (keys : list string) : Regex.regex :=
  Regex.Cat Regex.Bol
    (Regex.Cat (VersionOperator.reg_text (map Regex.lit keys)) Regex.Eol).

(** An instance as [__init__] leaves it and [add] keeps it: its pattern
    is the one [_operator_regexp] returned, whatever its store holds. *)
Definition constructed (keys : list string) (self : VersionOperator.instance) : Prop :=
  result (VersionOperator._operator_regexp keys true) = Ok (VersionOperator.regexp self).

(** The group [operator] of the match of the pattern on a text: no match,
    a match without the group, or the symbol. *)
Definition operator_group (keys : list string) (txt : string) : option (option string) :=
  option_map (Regex.lookup "operator") (Regex.search_from (version_regexp keys) 0 txt).

(** What [match] does once the search is over. *)
Definition match_of (raiseError : bool) (txt : string) (found : option (option string))
    : W (option VersionOperator.ver_dict) :=
  match found with
  | None =>
      log_error raiseError ("No version_match for version expression " ++ txt)%string ;;;
      ret None
  | Some operator =>
      check_fn <- VersionOperator._operator_check raiseError (Some txt) operator ;;
      easyversion <- VersionOperator._convert (Some txt) ;;
      log DEBUG ("version_match for version expression " ++ txt ++ ": {...}")%string ;;;
      ret (Some (VersionOperator.mkVerDict txt operator check_fn easyversion))
  end.

(** The six symbols, as the literal of [OPERATOR] lists them. *)
Definition OPERATOR_keys : list string := map fst VersionOperator.OPERATOR.

(** The lists obtained by putting [x] somewhere into [l]. *)
Fixpoint inserts (x : string) (l : list string) : list (list string) :=
  match l with
  | [] => [[x]]
  | y :: l' => (x :: l) :: map (cons y) (inserts x l')
  end.

(** The orders in which the elements of [l] can be listed. *)
Fixpoint orders (l : list string) : list (list string) :=
  match l with
  | [] => [[]]
  | x :: l' => flat_map (inserts x) (orders l')
  end.

(** The 720 orders in which [OPERATOR.keys()] can list the symbols. *)
Definition key_orders : list (list string) := Eval vm_compute in orders OPERATOR_keys.

(** Equality of two lists of texts. *)
Fixpoint list_eqb (l1 l2 : list string) : bool :=
  match l1, l2 with
  | [], [] => true
  | x :: l1', y :: l2' => (x =? y)%string && list_eqb l1' l2'
  | _, _ => false
  end.

(** Whether no text occurs twice in [l]. *)
Fixpoint nodupb (l : list string) : bool :=
  match l with
  | [] => true
  | x :: l' => negb (existsb (String.eqb x) l') && nodupb l'
  end.

(** A list without repetition is one of [key_orders]. *)
Definition listed (l : list string) : bool :=
  if nodupb l then existsb (list_eqb l) key_orders else true.

(** Equality of what a search gave for one group. *)
Definition found_eqb (x y : option (option string)) : bool :=
  match x, y with
  | None, None => true
  | Some None, Some None => true
  | Some (Some a), Some (Some b) => (a =? b)%string
  | _, _ => false
  end.

(** What a method returned or raised, and the instance it left. *)
Definition outcome_of {A} (r : outcome A * VersionOperator.instance * list entry)
  : outcome A := fst (fst r).

Definition instance_after {A} (r : outcome A * VersionOperator.instance * list entry)
  : VersionOperator.instance := snd (fst r).

(** The fields of a result of [match] that are data: the text, the
    operator symbol and the version. *)
Definition fields (r : outcome (option VersionOperator.ver_dict))
    : outcome (option (string * option string * EasyVersion)) :=
  match r with
  | Ok (Some d) =>
      Ok (Some (VersionOperator.ver_str d, VersionOperator.operator d,
                VersionOperator.easyversion d))
  | Ok None => Ok None
  | Raise e => Raise e
  end.

(** The value of a predicate on a candidate [c] when it applies the
    relation [rel] to the candidate's version: the conversion of the
    candidate comes first and may raise. *)
Definition on_candidate (rel : EasyVersion -> bool) (c : option string)
    : outcome bool :=
  match result (VersionOperator._convert c) with
  | Ok test_ver => Ok (rel test_ver)
  | Raise e => Raise e
  end.

(** What Python raises when [check] reaches [op] and [op] was never
    assigned. *)
Definition unbound_op : exn :=
  NameError "free variable 'op' referenced before assignment in enclosing scope".

(** [add], given what the search of [match] found. *)
Definition add_with (raiseError : bool) (found : option (option string)) (txt : string)
    : VersionOperator.M unit :=
  VersionOperator.mbind (VersionOperator.liftW (match_of raiseError txt found))
    (fun version_dict =>
       match version_dict with
       | None =>
           VersionOperator.liftW
             (log_error raiseError ("version " ++ txt ++ " does not version_match")%string)
       | Some version_dict =>
           VersionOperator.mbind VersionOperator.get_self (fun self =>
           VersionOperator.mbind
             (VersionOperator.liftW
                (VersionOperator.insert_index
                   (VersionOperator.easyversion version_dict) 0
                   (VersionOperator.versions self))) (fun insert_idx =>
           VersionOperator.mbind
             (VersionOperator.liftW (log DEBUG "Insert version {...} in index {...}"))
             (fun _ =>
           VersionOperator.set_versions
             (VersionOperator.list_insert insert_idx version_dict
                (VersionOperator.versions self)))))
       end).

(** The calls [add(t)] for the texts of a list, one after the other on
    the same instance, each call made whatever the one before returned or
    raised. *)
Definition add_all (raiseError : bool) (txts : list string)
    (self : VersionOperator.instance) : VersionOperator.instance :=
  fold_left (fun self txt => instance_after (VersionOperator.add raiseError txt self))
    txts self.

(** The same calls, given what each search found. *)
Definition add_all_with (raiseError : bool) (keys : list string) (txts : list string)
    (self : VersionOperator.instance) : VersionOperator.instance :=
  fold_left
    (fun self txt =>
       instance_after (add_with raiseError (operator_group keys txt) txt self))
    txts self.

(** The texts of the stored entries, first to last. *)
Definition stored (self : VersionOperator.instance) : list string :=
  map VersionOperator.ver_str (VersionOperator.versions self).

(** Whether every stored version is at or above the one after it. *)
Fixpoint descending (vs : list VersionOperator.ver_dict) : bool :=
  match vs with
  | a :: (b :: _) as rest =>
      op_ge (VersionOperator.easyversion a) (VersionOperator.easyversion b)
      && descending rest
  | _ => true
  end.

(** What [self.toolchain_regexp] raises on an instance of
    [ToolchainOperator]. *)
Definition no_toolchain_regexp : exn :=
  AttributeError "'ToolchainOperator' object has no attribute 'toolchain_regexp'".

(** The pattern of [ToolchainOperator._operator_regexp]. *)
Definition toolchain_regexp (keys tc_names : list string) : Regex.regex :=
  Regex.Cat Regex.Bol
    (Regex.Cat (Regex.Grp "toolchainname" (Regex.alts (map Regex.lit tc_names)))
       (Regex.Cat
          (Regex.Opt (Regex.Cat (Regex.lit ToolchainOperator.SEPARATOR)
                        (Regex.Grp "toolchainversion"
                           (VersionOperator.reg_text (map Regex.lit keys)))))
          Regex.Eol)).

(** Equality of two dictionaries of groups. *)
Definition option_string_eqb (x y : option string) : bool :=
  match x, y with
  | None, None => true
  | Some a, Some b => (a =? b)%string
  | _, _ => false
  end.

Fixpoint dict_eqb (d1 d2 : dict) : bool :=
  match d1, d2 with
  | [], [] => true
  | (k1, v1) :: d1', (k2, v2) :: d2' =>
      (k1 =? k2)%string && option_string_eqb v1 v2 && dict_eqb d1' d2'
  | _, _ => false
  end.

(** The groups of a search, or [None] when the pattern does not match. *)
Definition search_groups (r : Regex.regex) (txt : string) : option dict :=
  option_map Regex.groupdict (Regex.search r txt).

(** Equality of what two searches gave. *)
Definition groups_eqb (x y : option dict) : bool :=
  match x, y with
  | None, None => true
  | Some a, Some b => dict_eqb a b
  | _, _ => false
  end.

(** The registry of the example: the toolchains goolf and intel, in
    either order. *)
Definition registry (tc_names : list string) : Prop :=
  tc_names = ["goolf"; "intel"] \/ tc_names = ["intel"; "goolf"].

(** What [self.add_version] raises on an instance of
    [ConfigObjVersion]. *)
Definition no_add_version : exn :=
  AttributeError "'ConfigObjVersion' object has no attribute 'add_version'".

(** The group [ver_str] of the match of the pattern on a text. *)
Definition ver_str_group (keys : list string) (txt : string) : option (option string) :=
  option_map (Regex.lookup "ver_str") (Regex.search_from (version_regexp keys) 0 txt).

(** ** What a pattern can take *)

Section Denotation.

Import Regex.

(** The newline character, as a text. *)
Definition newline : string := String (ascii_of_N 10) "".

(** [den r pos pre rest c c']: the pattern [r] can take the text [pre]
    at offset [pos], with [rest] after it, and turn the groups [c] into
    [c']. *)
Fixpoint den (r : regex) (pos : nat) (pre rest : string) (c c' : caps) : Prop :=
  match r with
  | Empty => pre = "" /\ c' = c
  | Chr a => pre = String a "" /\ c' = c
  | Cls p => exists b, p b = true /\ pre = String b "" /\ c' = c
  | Cat r1 r2 =>
      exists p1 p2 cm,
        pre = (p1 ++ p2)%string /\
        den r1 pos p1 (p2 ++ rest)%string c cm /\
        den r2 (pos + String.length p1) p2 rest cm c'
  | Alt r1 r2 => den r1 pos pre rest c c' \/ den r2 pos pre rest c c'
  | Opt r1 => den r1 pos pre rest c c' \/ (pre = "" /\ c' = c)
  | StarCls p => forallb_string p pre = true /\ c' = c
  | Grp name r1 => exists cm, den r1 pos pre rest c cm /\ c' = (name, pre) :: cm
  | Bol => pos = 0%nat /\ pre = "" /\ c' = c
  | Eol => pre = "" /\ (rest = "" \/ rest = newline) /\ c' = c
  end.

End Denotation.

(** ** The weight of a version *)

Section Weights.

Import LooseVersion.

(** A character that is neither a digit nor a dot. *)
Definition counted (c : ascii) : bool := negb (is_digit c) && negb (c =? ".")%char.

(** The number of such characters in a text. *)
Fixpoint nondig (s : string) : nat :=
  match s with
  | "" => 0
  | String c s' => (if counted c then 1 else 0) + nondig s'
  end.

(** The length of a textual component; a number weighs nothing. *)
Definition cweight (x : component) : nat :=
  match x with
  | CInt _ => 0
  | CStr s => String.length s
  end.

(** The number of characters in the textual components of a version. *)
Definition weight (l : list component) : nat := list_sum (map cweight l).

(** The weight that a piece of the split brings to the version. *)
Definition pweight (x : string) : nat :=
  if keep x then cweight (to_component x) else 0.

(** A character of a gap: not a digit, not a lower-case letter, not a
    dot. *)
Definition other (c : ascii) : bool :=
  negb (is_digit c) && negb (is_lower c) && negb (c =? ".")%char.

(** The match in progress is not empty and holds characters of its class
    only. *)
Definition run_ok (cur : run) : Prop :=
  match cur with
  | NoRun => True
  | DigitRun m => m <> "" /\ forallb_string is_digit m = true
  | LowerRun m => m <> "" /\ forallb_string is_lower m = true
  end.

(** The weight that the match in progress will bring. *)
Definition run_weight (cur : run) : nat :=
  match cur with
  | LowerRun m => String.length m
  | _ => 0
  end.

End Weights.

(** ** Version expressions, the store and the configuration

    What the further properties speak of. *)

(** The last character of the text [String b u]. *)
Fixpoint last_char (b : ascii) (u : string) : ascii :=
  match u with
  | "" => b
  | String c u' => last_char c u'
  end.

(** A version text as the pattern takes it for the group [ver_str]: it
    begins and ends with a letter or a digit and holds no white space. *)
Definition is_name (tok : string) : bool :=
  match tok with
  | "" => false
  | String b u =>
      VersionOperator.not_sep_nonword b
      && forallb_string VersionOperator.nonspace u
      && VersionOperator.not_sep_nonword (last_char b u)
  end.

(** A version expression: a version text, then possibly the separator and
    one of the symbols [keys], then possibly one newline. *)
Definition version_expression (keys : list string) (txt : string) : Prop :=
  exists tok nl,
    is_name tok = true /\
    (nl = "" \/ nl = newline) /\
    (txt = (tok ++ nl)%string \/
     exists op, In op keys /\ txt = (tok ++ "_" ++ op ++ nl)%string).

(** The last character of a text, if it has one. *)
Definition final (s : string) : option ascii :=
  match s with
  | "" => None
  | String b u => Some (last_char b u)
  end.

(** The instance that [VersionOperator()] builds. *)
Definition fresh_instance (keys : list string) : VersionOperator.instance :=
  VersionOperator.mkInstance (version_regexp keys) [].

(** The pattern inside the group [ver_str]. *)
Definition name_pattern : Regex.regex :=
  Regex.Cat (Regex.Cls VersionOperator.not_sep_nonword)
    (Regex.Opt (Regex.Cat (Regex.StarCls VersionOperator.nonspace)
                          (Regex.Cls VersionOperator.not_sep_nonword))).

(** A toolchain expression: a name of the registry (the empty text when
    the registry is empty), then possibly the separator and a version
    expression, then possibly one newline. *)
Definition toolchain_expression (keys tc_names : list string) (txt : string) : Prop :=
  exists name nl,
    (In name tc_names \/ (tc_names = [] /\ name = "")) /\
    (nl = "" \/ nl = newline) /\
    (txt = (name ++ nl)%string \/
     exists tok,
       is_name tok = true /\
       (txt = (name ++ "_" ++ tok ++ nl)%string \/
        exists op, In op keys /\ txt = (name ++ "_" ++ tok ++ "_" ++ op ++ nl)%string)).

(** What [match] returns or raises when the pattern does not match. *)
Definition no_version_match (raiseError : bool) (txt : string)
    : outcome (option VersionOperator.ver_dict) :=
  if raiseError
  then Raise (EasyBuildError ("No version_match for version expression " ++ txt)%string)
  else Ok None.

(** The stored entries that the new version is strictly below. *)
Definition above (new : EasyVersion) (e : VersionOperator.ver_dict) : bool :=
  op_lt new (VersionOperator.easyversion e).

(** The new entry [d] stands in [after] directly before the first entry
    of [old] that its version is strictly below, or first when there is no
    such entry. *)
Definition placed (d : VersionOperator.ver_dict)
    (old after : list VersionOperator.ver_dict) : Prop :=
  (forallb (fun e => negb (above (VersionOperator.easyversion d) e)) old = true /\
   after = d :: old) \/
  (exists before e rest,
      old = before ++ e :: rest /\
      forallb (fun e => negb (above (VersionOperator.easyversion d) e)) before = true /\
      above (VersionOperator.easyversion d) e = true /\
      after = before ++ d :: e :: rest).

(** An entry as [match] builds it: its version is that of its own text,
    which is not empty, and its predicate is the one [_operator_check]
    returns for that text and the entry's operator. *)
Definition entry_ok (raiseError : bool) (d : VersionOperator.ver_dict) : Prop :=
  VersionOperator.ver_str d <> "" /\
  VersionOperator.easyversion d = parsed (VersionOperator.ver_str d) /\
  result (VersionOperator._operator_check raiseError
            (Some (VersionOperator.ver_str d)) (VersionOperator.operator d))
    = Ok (VersionOperator.check_fn d).

(** What [_operator_check] returns or raises, and what the predicate it
    returned gives on a candidate. *)
Definition verdict (raiseError : bool) (ver_str : string) (operator : option string)
    (c : option string) : outcome bool :=
  match result (VersionOperator._operator_check raiseError (Some ver_str) operator) with
  | Ok chk => result (chk c)
  | Raise e => Raise e
  end.

(** A section that [set_configobj] passes over: a [DEFAULT] section with
    neither a key [version] nor a key [toolchain]. *)
Definition passed_over (item : string * ConfigObjVersion.section) : bool :=
  (fst item =? "DEFAULT")%string
  && negb (ConfigObjVersion.has_key "version" (snd item))
  && negb (ConfigObjVersion.has_key "toolchain" (snd item)).

(** The method that [set_configobj] looks up first on a section. *)
Definition first_lookup (item : string * ConfigObjVersion.section) : string :=
  if (fst item =? "DEFAULT")%string then
    if ConfigObjVersion.has_key "version" (snd item) then "add_version"
    else "toolchain_match"
  else "add_toolchain".

(** A version text followed by the separator and one of the six
    symbols. *)
Definition suffixed (txt : string) : Prop :=
  exists tok OP,
    is_name tok = true /\ In OP OPERATOR_keys /\ txt = (tok ++ "_" ++ OP)%string.

(** Whether the version of every text is at or above that of the text
    before it. *)
Fixpoint ascending (txts : list string) : bool :=
  match txts with
  | a :: (b :: _) as rest => op_ge (parsed b) (parsed a) && ascending rest
  | _ => true
  end.

(** * Properties *)

(** ** The order on version values *)

Section Ordering.

Import LooseVersion.

Lemma ascii_compare_refl (a : ascii) : Ascii.compare a a = Eq.
Proof. unfold Ascii.compare. apply N.compare_refl. Qed.

Lemma ascii_compare_lt_trans (a b c : ascii) :
  Ascii.compare a b = Lt -> Ascii.compare b c = Lt -> Ascii.compare a c = Lt.
Proof.
  unfold Ascii.compare. rewrite !N.compare_lt_iff. apply N.lt_trans.
Qed.

Lemma string_compare_refl (s : string) : String.compare s s = Eq.
Proof.
  induction s as [|a s IH]; simpl; [reflexivity|].
  now rewrite ascii_compare_refl.
Qed.

Lemma string_compare_lt_trans (s1 : string) :
  forall s2 s3,
    String.compare s1 s2 = Lt -> String.compare s2 s3 = Lt ->
    String.compare s1 s3 = Lt.
Proof.
  induction s1 as [|a s1 IH]; intros [|b s2] [|c s3]; simpl;
    try discriminate; try reflexivity.
  destruct (Ascii.compare a b) eqn:Eab; try discriminate;
    destruct (Ascii.compare b c) eqn:Ebc; try discriminate; intros H12 H23.
  - apply Ascii.compare_eq_iff in Eab, Ebc. subst.
    rewrite ascii_compare_refl. eapply IH; eassumption.
  - apply Ascii.compare_eq_iff in Eab. subst. now rewrite Ebc.
  - apply Ascii.compare_eq_iff in Ebc. subst. now rewrite Eab.
  - now rewrite (ascii_compare_lt_trans _ _ _ Eab Ebc).
Qed.

Lemma cmp_component_refl (a : component) : cmp_component a a = Eq.
Proof.
  destruct a; simpl; [apply Z.compare_refl | apply string_compare_refl].
Qed.

Lemma cmp_component_eq (a b : component) : cmp_component a b = Eq -> a = b.
Proof.
  destruct a, b; simpl; try discriminate; intros H.
  - apply Z.compare_eq in H. now subst.
  - apply String.compare_eq_iff in H. now subst.
Qed.

Lemma cmp_component_antisym (a b : component) :
  cmp_component b a = CompOpp (cmp_component a b).
Proof.
  destruct a, b; simpl; try reflexivity.
  - apply Z.compare_antisym.
  - apply String.compare_antisym.
Qed.

Lemma cmp_component_lt_trans (a b c : component) :
  cmp_component a b = Lt -> cmp_component b c = Lt -> cmp_component a c = Lt.
Proof.
  destruct a, b, c; simpl; try discriminate; try reflexivity.
  - rewrite !Z.compare_lt_iff. apply Z.lt_trans.
  - apply string_compare_lt_trans.
Qed.

Lemma cmp_list_refl (l : list component) : cmp_list l l = Eq.
Proof.
  induction l as [|a l IH]; simpl; [reflexivity|].
  now rewrite cmp_component_refl.
Qed.

Lemma cmp_list_eq (l1 : list component) :
  forall l2, cmp_list l1 l2 = Eq -> l1 = l2.
Proof.
  induction l1 as [|a l1 IH]; intros [|b l2]; simpl; try discriminate;
    [reflexivity|].
  destruct (cmp_component a b) eqn:E; try discriminate.
  intros H. apply cmp_component_eq in E. apply IH in H. now subst.
Qed.

Lemma cmp_list_antisym (l1 : list component) :
  forall l2, cmp_list l2 l1 = CompOpp (cmp_list l1 l2).
Proof.
  induction l1 as [|a l1 IH]; intros [|b l2]; simpl; try reflexivity.
  rewrite (cmp_component_antisym a b).
  destruct (cmp_component a b); simpl; auto.
Qed.

Lemma cmp_list_lt_trans (l1 : list component) :
  forall l2 l3,
    cmp_list l1 l2 = Lt -> cmp_list l2 l3 = Lt -> cmp_list l1 l3 = Lt.
Proof.
  induction l1 as [|a l1 IH]; intros [|b l2] [|c l3]; simpl;
    try discriminate; try reflexivity.
  destruct (cmp_component a b) eqn:Eab; try discriminate;
    destruct (cmp_component b c) eqn:Ebc; try discriminate; intros H12 H23.
  - apply cmp_component_eq in Eab, Ebc. subst.
    rewrite cmp_component_refl. eapply IH; eassumption.
  - apply cmp_component_eq in Eab. subst. now rewrite Ebc.
  - apply cmp_component_eq in Ebc. subst. now rewrite Eab.
  - now rewrite (cmp_component_lt_trans _ _ _ Eab Ebc).
Qed.

(** A list that is a strict prefix of another is below it. *)
Lemma cmp_list_prefix (l : list component) (x : component) (r : list component) :
  cmp_list l (l ++ x :: r) = Lt.
Proof.
  induction l as [|a l IH]; simpl; [reflexivity|].
  now rewrite cmp_component_refl.
Qed.

End Ordering.

(** C7.  The comparison of version values is a total order: of [<],
    [==] and [>] exactly one holds for any two values, [==] holds only
    between values with the same components, swapping the arguments mirrors
    the result, [<=] is antisymmetric and [<] is transitive.  On the sample
    texts, 1.2.3 < 1.2.4 < 1.3 < 2.0 and 1.2 < 1.2.0.1, and a value whose
    components are a strict prefix of another's is below it. *)
Theorem version_order_total :
  (forall a b : EasyVersion,
      (op_lt a b = true /\ op_eq a b = false /\ op_gt a b = false) \/
      (op_lt a b = false /\ op_eq a b = true /\ op_gt a b = false) \/
      (op_lt a b = false /\ op_eq a b = false /\ op_gt a b = true)) /\
  (forall a b : EasyVersion, op_eq a b = true <-> version a = version b) /\
  (forall a b : EasyVersion, EasyVersion_cmp b a = CompOpp (EasyVersion_cmp a b)) /\
  (forall a b : EasyVersion,
      op_le a b = true -> op_le b a = true -> version a = version b) /\
  (forall a b c : EasyVersion,
      op_lt a b = true -> op_lt b c = true -> op_lt a c = true) /\
  (forall a b : EasyVersion,
      (exists x r, version b = version a ++ x :: r) -> op_lt a b = true) /\
  (EasyVersion_init "1.2.3" = Some (parsed "1.2.3") /\
   EasyVersion_init "1.2.4" = Some (parsed "1.2.4") /\
   EasyVersion_init "1.3" = Some (parsed "1.3") /\
   EasyVersion_init "2.0" = Some (parsed "2.0") /\
   EasyVersion_init "1.2" = Some (parsed "1.2") /\
   EasyVersion_init "1.2.0.1" = Some (parsed "1.2.0.1")) /\
  op_lt (parsed "1.2.3") (parsed "1.2.4") = true /\
  op_lt (parsed "1.2.4") (parsed "1.3") = true /\
  op_lt (parsed "1.3") (parsed "2.0") = true /\
  op_lt (parsed "1.2") (parsed "1.2.0.1") = true.
Proof.
  unfold op_lt, op_eq, op_gt, op_le, EasyVersion_cmp.
  split; [|split; [|split; [|split; [|split; [|split]]]]].
  - intros a b. destruct (LooseVersion.cmp_list (version a) (version b)); tauto.
  - intros a b. split.
    + destruct (LooseVersion.cmp_list (version a) (version b)) eqn:E;
        try discriminate. intros _. now apply cmp_list_eq.
    + intros ->. now rewrite cmp_list_refl.
  - intros a b. apply cmp_list_antisym.
  - intros a b. rewrite (cmp_list_antisym (version a) (version b)).
    destruct (LooseVersion.cmp_list (version a) (version b)) eqn:E; simpl;
      try discriminate; intros _ _. now apply cmp_list_eq.
  - intros a b c.
    destruct (LooseVersion.cmp_list (version a) (version b)) eqn:Eab;
      try discriminate.
    destruct (LooseVersion.cmp_list (version b) (version c)) eqn:Ebc;
      try discriminate.
    intros _ _. now rewrite (cmp_list_lt_trans _ _ _ Eab Ebc).
  - intros a b (x & r & ->). now rewrite cmp_list_prefix.
  - vm_compute. repeat split.
Qed.

Lemma version_order_total_witness :
  op_lt (parsed "1.2.3") (parsed "1.2.4") = true /\
  op_lt (parsed "1.2.4") (parsed "1.3") = true /\
  op_lt (parsed "1.2.3") (parsed "1.3") = true.
Proof.
  split; [reflexivity|]. split; [reflexivity|].
  apply (proj1 (proj2 (proj2 (proj2 (proj2 version_order_total))))
           (parsed "1.2.3") (parsed "1.2.4") (parsed "1.3"));
    reflexivity.
Defined.

(** ** What a match of the version pattern says about the text *)

Section Soundness.

Import Regex.

Lemma append_nil_r (s : string) : (s ++ "")%string = s.
Proof. induction s; simpl; congruence. Qed.

Lemma append_assoc (a b c : string) : ((a ++ b) ++ c = a ++ (b ++ c))%string.
Proof. induction a; simpl; congruence. Qed.

Lemma length_append (a b : string) :
  String.length (a ++ b) = (String.length a + String.length b)%nat.
Proof. induction a; simpl; congruence. Qed.

Lemma substring_prefix (a b : string) :
  substring 0 (String.length a) (a ++ b) = a.
Proof.
  induction a as [|c a IH]; simpl.
  - destruct b; reflexivity.
  - now rewrite IH.
Qed.

Lemma star_sound (p : ascii -> bool) (k : cont) :
  forall s pos c x,
    star p k pos s c = Some x ->
    exists pre s',
      s = (pre ++ s')%string /\ forallb_string p pre = true /\
      k (pos + String.length pre)%nat s' c = Some x.
Proof.
  induction s as [|a s IH]; intros pos c x H; simpl in H.
  - exists "", "". rewrite Nat.add_0_r. auto.
  - destruct (p a) eqn:Ep.
    + destruct (star p k (S pos) s c) as [y|] eqn:E.
      * inversion H; subst y. apply IH in E as (pre & s' & -> & Hp & Hk).
        exists (String a pre), s'. simpl. rewrite Ep, Hp.
        rewrite <- Nat.add_succ_comm. auto.
      * exists "", (String a s). rewrite Nat.add_0_r. auto.
    + exists "", (String a s). rewrite Nat.add_0_r. auto.
Qed.

Lemma rmatch_sound (r : regex) :
  forall k pos s c x,
    rmatch r k pos s c = Some x ->
    exists pre s' c',
      s = (pre ++ s')%string /\ den r pos pre s' c c' /\
      k (pos + String.length pre)%nat s' c' = Some x.
Proof.
  induction r as [|a|p|r1 IH1 r2 IH2|r1 IH1 r2 IH2|r1 IH1|p|name r1 IH1| |];
    intros k pos s c x H; simpl in H.
  - exists "", s, c. rewrite Nat.add_0_r. simpl. auto.
  - destruct s as [|b s]; [discriminate|].
    destruct (a =? b)%char eqn:E; [|discriminate].
    apply Ascii.eqb_eq in E. subst b.
    exists (String a ""), s, c. simpl. rewrite Nat.add_1_r. auto.
  - destruct s as [|b s]; [discriminate|].
    destruct (p b) eqn:E; [|discriminate].
    exists (String b ""), s, c. simpl. rewrite Nat.add_1_r. eauto 6.
  - apply IH1 in H as (p1 & s1 & c1 & -> & D1 & H).
    apply IH2 in H as (p2 & s2 & c2 & -> & D2 & H).
    exists (p1 ++ p2)%string, s2, c2. rewrite append_assoc, length_append, Nat.add_assoc.
    split; [reflexivity|]. split; [|exact H].
    simpl. eauto 8.
  - destruct (rmatch r1 k pos s c) as [y|] eqn:E.
    + inversion H; subst y. apply IH1 in E as (pre & s' & c' & -> & D & Hk).
      exists pre, s', c'. simpl. auto.
    + apply IH2 in H as (pre & s' & c' & -> & D & Hk).
      exists pre, s', c'. simpl. auto.
  - destruct (rmatch r1 k pos s c) as [y|] eqn:E.
    + inversion H; subst y. apply IH1 in E as (pre & s' & c' & -> & D & Hk).
      exists pre, s', c'. simpl. auto.
    + exists "", s, c. rewrite Nat.add_0_r. simpl. auto.
  - apply star_sound in H as (pre & s' & -> & Hp & Hk).
    exists pre, s', c. simpl. auto.
  - apply IH1 in H as (pre & s' & c' & -> & D & Hk).
    exists pre, s', ((name, pre) :: c'). split; [reflexivity|]. split.
    + simpl. exists c'. split; [exact D | reflexivity].
    + replace (pos + String.length pre - pos)%nat with (String.length pre) in Hk by lia.
      now rewrite substring_prefix in Hk.
  - destruct (pos =? 0)%nat eqn:E; [|discriminate].
    apply Nat.eqb_eq in E. exists "", s, c. rewrite Nat.add_0_r. simpl. auto.
  - destruct s as [|b [|b' s]]; try discriminate.
    + exists "", "", c. rewrite Nat.add_0_r. simpl. repeat split; auto.
    + destruct (N_of_ascii b =? 10)%N eqn:E; [|discriminate].
      apply N.eqb_eq in E.
      assert (b = ascii_of_N 10) by (rewrite <- E; now rewrite ascii_N_embedding).
      subst b. exists "", (String (ascii_of_N 10) ""), c.
      rewrite Nat.add_0_r. simpl. repeat split; auto.
Qed.

Lemma den_lit (s : string) :
  forall pos pre rest c c',
    den (lit s) pos pre rest c c' -> pre = s /\ c' = c.
Proof.
  induction s as [|a s IH]; simpl; intros pos pre rest c c' D.
  - exact D.
  - destruct D as (p1 & p2 & cm & -> & (-> & ->) & D).
    apply IH in D as (-> & ->). auto.
Qed.

Lemma den_alts_lit (keys : list string) :
  forall pos pre rest c c',
    den (alts (map lit keys)) pos pre rest c c' ->
    c' = c /\ (keys = [] \/ In pre keys).
Proof.
  induction keys as [|k keys IH]; intros pos pre rest c c' D.
  - simpl in D. split; [apply D | now left].
  - destruct keys as [|k' keys].
    + simpl in D. apply den_lit in D as (-> & ->). split; [reflexivity|].
      right. now left.
    + change (den (lit k) pos pre rest c c'
              \/ den (alts (map lit (k' :: keys))) pos pre rest c c') in D.
      destruct D as [D|D].
      * apply den_lit in D as (-> & ->). split; [reflexivity|]. right. now left.
      * apply IH in D as (-> & [E|Hin]); [discriminate E|].
        split; [reflexivity|]. right. now right.
Qed.

Lemma search_from_anchored (r : regex) (s : string) :
  forall pos, pos <> 0%nat -> search_from (Cat Bol r) pos s = None.
Proof.
  induction s as [|a s IH]; intros pos Hpos; simpl;
    destruct (Nat.eqb_neq pos 0) as [_ E]; rewrite (E Hpos); auto.
Qed.

(** A text on which the version pattern matches is the text of the
    group [ver_str], then the separator and the operator symbol if the
    group [operator] took part, then nothing or one newline. *)
Lemma version_regexp_match (keys : list string) (txt : string) (c : caps) :
  search_from (version_regexp keys) 0 txt = Some c ->
  exists tok nl,
    (nl = "" \/ nl = newline) /\
    lookup "ver_str" c = Some tok /\
    ((lookup "operator" c = None /\ txt = (tok ++ nl)%string) \/
     (exists op, lookup "operator" c = Some op /\
                 (keys = [] \/ In op keys) /\
                 txt = (tok ++ "_" ++ op ++ nl)%string)).
Proof.
  intros H.
  assert (M : rmatch (version_regexp keys) (fun _ _ c => Some c) 0 txt [] = Some c).
  { unfold version_regexp in *.
    destruct txt as [|a txt]; cbn [search_from] in H;
      destruct (rmatch _ _ 0 _ []) as [y|]; auto; try discriminate.
    rewrite search_from_anchored in H by discriminate. discriminate. }
  apply rmatch_sound in M as (pre & rest & c' & -> & D & K).
  inversion K; subst c'. clear K.
  unfold version_regexp, VersionOperator.reg_text in D. cbn [den] in D.
  destruct D as (p1 & p2 & c1 & -> & (_ & -> & ->) & D).
  destruct D as (q1 & q2 & c2 & -> & D & (-> & Hnl & ->)).
  destruct D as (t1 & t2 & c3 & -> & D1 & D2).
  destruct D1 as (c4 & D1 & ->).
  destruct D1 as (u1 & u2 & c5 & -> & (b & _ & -> & ->) & D1).
  assert (c4 = []).
  { destruct D1 as [(v1 & v2 & c6 & _ & (_ & ->) & (b' & _ & _ & ->)) | (_ & ->)];
      reflexivity. }
  subst c4. clear D1.
  exists (String b "" ++ u2)%string, rest. split; [exact Hnl|].
  destruct D2 as [(w1 & w2 & c7 & -> & Dsep & (c8 & Dops & ->)) | (-> & ->)].
  - apply (den_lit VersionOperator.SEPARATOR) in Dsep as (-> & ->).
    apply den_alts_lit in Dops as (-> & Hin).
    split; [reflexivity|]. right. exists w2. split; [reflexivity|].
    split; [exact Hin|]. cbn. rewrite !append_nil_r, !append_assoc. reflexivity.
  - split; [reflexivity|]. left. split; [reflexivity|].
    cbn. now rewrite !append_nil_r.
Qed.

End Soundness.

(** ** The characters of a text that end up in its textual components *)

Section Weight.

Import LooseVersion.

Lemma list_sum_cons (a : nat) (r : list nat) :
  list_sum (a :: r) = (a + list_sum r)%nat.
Proof. reflexivity. Qed.

Lemma weight_parse_pieces (l : list string) :
  weight (map to_component (filter keep l)) = list_sum (map pweight l).
Proof.
  induction l as [|x l IH]; [reflexivity|].
  unfold weight in *. cbn [filter]. rewrite (map_cons pweight). unfold pweight at 1.
  destruct (keep x); rewrite ?map_cons, !list_sum_cons, IH; reflexivity.
Qed.

Lemma digit_not_dot (c : ascii) : is_digit c = true -> (c =? ".")%char = false.
Proof.
  destruct c as [[] [] [] [] [] [] [] []]; vm_compute; congruence.
Qed.

Lemma lower_not_dot (c : ascii) : is_lower c = true -> (c =? ".")%char = false.
Proof.
  destruct c as [[] [] [] [] [] [] [] []]; vm_compute; congruence.
Qed.

Lemma lower_not_digit (c : ascii) : is_lower c = true -> is_digit c = false.
Proof.
  destruct c as [[] [] [] [] [] [] [] []]; vm_compute; congruence.
Qed.

Lemma forallb_snoc (p : ascii -> bool) (s : string) (c : ascii) :
  forallb_string p (snoc s c) = forallb_string p s && p c.
Proof.
  unfold snoc. induction s as [|a s IH]; simpl.
  - now rewrite andb_true_r.
  - rewrite IH. now rewrite andb_assoc.
Qed.

Lemma length_snoc (s : string) (c : ascii) :
  String.length (snoc s c) = S (String.length s).
Proof. unfold snoc. induction s; simpl; congruence. Qed.

Lemma snoc_not_empty (s : string) (c : ascii) : snoc s c <> "".
Proof. unfold snoc. destruct s; discriminate. Qed.

Lemma pweight_other (g : string) :
  forallb_string other g = true -> pweight g = String.length g.
Proof.
  destruct g as [|a g]; [reflexivity|]. simpl. intros H.
  apply andb_prop in H as [Ha _]. unfold other in Ha.
  apply andb_prop in Ha as [Ha Hdot]. apply andb_prop in Ha as [Hd _].
  apply negb_true_iff in Hd, Hdot.
  unfold pweight, keep, to_component, py_int.
  cbn [String.eqb forallb_string]. rewrite Hdot, Hd. reflexivity.
Qed.

Lemma pweight_lower (m : string) :
  m <> "" -> forallb_string is_lower m = true -> pweight m = String.length m.
Proof.
  destruct m as [|a m]; [congruence|]. simpl. intros _ H.
  apply andb_prop in H as [Ha _].
  unfold pweight, keep, to_component, py_int.
  cbn [String.eqb forallb_string].
  rewrite (lower_not_dot _ Ha), (lower_not_digit _ Ha). reflexivity.
Qed.

Lemma pweight_digits (m : string) :
  m <> "" -> forallb_string is_digit m = true -> pweight m = 0%nat.
Proof.
  destruct m as [|a m]; [congruence|]. intros _ H.
  unfold pweight, to_component, py_int. rewrite H.
  destruct (keep (String a m)); reflexivity.
Qed.

Lemma split_weight (s : string) :
  forall gap cur,
    forallb_string other gap = true ->
    run_ok cur ->
    list_sum (map pweight (component_split s gap cur))
      = (nondig s + String.length gap + run_weight cur)%nat.
Proof.
  induction s as [|c s IH]; intros gap cur Hgap Hcur.
  - destruct cur as [|m|m]; simpl; destruct Hcur as [];
      rewrite ?(pweight_other _ Hgap), ?pweight_digits, ?pweight_lower by assumption;
      simpl; lia.
  - assert (Hstart :
      forall g, forallb_string other g = true ->
        list_sum (map pweight
          (if is_digit c then component_split s g (DigitRun (String c ""))
           else if is_lower c then component_split s g (LowerRun (String c ""))
           else if (c =? ".")%char then g :: "." :: component_split s "" NoRun
           else component_split s (snoc g c) NoRun))
        = (nondig (String c s) + String.length g)%nat).
    { intros g Hg. cbn [nondig]. unfold counted.
      destruct (is_digit c) eqn:Ed; [|destruct (is_lower c) eqn:El;
        [|destruct (c =? ".")%char eqn:Edot]].
      - rewrite IH; [simpl; lia | exact Hg | simpl; rewrite Ed; split; [discriminate | reflexivity]].
      - rewrite (lower_not_dot _ El).
        rewrite IH; [simpl; lia | exact Hg | simpl; rewrite El; split; [discriminate | reflexivity]].
      - rewrite !map_cons, !list_sum_cons, IH by (simpl; auto).
        rewrite (pweight_other _ Hg). simpl. lia.
      - rewrite IH; [rewrite length_snoc; simpl; lia | | exact I].
        rewrite forallb_snoc, Hg. unfold other. now rewrite Ed, El, Edot. }
    destruct cur as [|m|m]; cbn [component_split].
    + rewrite Hstart by exact Hgap. simpl. lia.
    + destruct Hcur as [Hm Hd]. destruct (is_digit c) eqn:Ed.
      * rewrite IH; [cbn [nondig]; unfold counted; rewrite Ed; simpl; lia | exact Hgap |].
        split; [apply snoc_not_empty | now rewrite forallb_snoc, Hd, Ed].
      * rewrite !map_cons, !list_sum_cons.
        rewrite (Hstart "" eq_refl), (pweight_other _ Hgap), (pweight_digits _ Hm Hd).
        simpl. lia.
    + destruct Hcur as [Hm Hl]. destruct (is_lower c) eqn:El.
      * rewrite IH; [| exact Hgap |].
        -- cbn [nondig run_weight]. unfold counted.
           rewrite (lower_not_digit _ El), (lower_not_dot _ El), length_snoc. simpl. lia.
        -- split; [apply snoc_not_empty | now rewrite forallb_snoc, Hl, El].
      * rewrite !map_cons, !list_sum_cons.
        rewrite (Hstart "" eq_refl), (pweight_other _ Hgap), (pweight_lower _ Hm Hl).
        simpl. lia.
Qed.

(** The textual components of a version hold exactly the characters of
    the text that are neither digits nor dots. *)
Lemma weight_parse (s : string) : weight (parse s) = nondig s.
Proof.
  unfold parse. rewrite weight_parse_pieces, split_weight by (simpl; auto).
  simpl. lia.
Qed.

Lemma nondig_append (a b : string) : nondig (a ++ b) = (nondig a + nondig b)%nat.
Proof. induction a as [|c a IH]; simpl; [reflexivity | rewrite IH; lia]. Qed.

End Weight.

(** ** [_convert] *)

(** C8.  [_convert(None)] does not raise: it logs a warning, takes the
    text [0.0.0] in place of the missing one and returns its version, whose
    components are the integers 0, 0, 0. *)
Theorem convert_none_fallback :
  VersionOperator._convert None =
    (Ok (parsed "0.0.0"),
     [ mkEntry WARNING "_convert: no version passed, set it to 0.0.0";
       mkEntry DEBUG "converted string 0.0.0 to version 0.0.0" ]) /\
  version (parsed "0.0.0") =
    [LooseVersion.CInt 0; LooseVersion.CInt 0; LooseVersion.CInt 0] /\
  (exists e, In e (logged (VersionOperator._convert None)) /\ lvl e = WARNING).
Proof.
  split; [reflexivity|]. split; [reflexivity|].
  eexists. split; [left; reflexivity | reflexivity].
Qed.

Lemma convert_text (s : string) :
  s <> "" ->
  VersionOperator._convert (Some s) =
    (Ok (parsed s),
     [mkEntry DEBUG ("converted string " ++ s ++ " to version " ++ s)%string]).
Proof.
  intros H. destruct s as [|a s]; [congruence|]. reflexivity.
Qed.

Lemma convert_empty :
  VersionOperator._convert (Some "") =
    (Raise (AttributeError "EasyVersion instance has no attribute 'vstring'"), []).
Proof. reflexivity. Qed.

(** What [_convert] returns is the version of the text it was given, or
    of [0.0.0] when it was given none. *)
Lemma convert_result (c : option string) (t : EasyVersion) :
  result (VersionOperator._convert c) = Ok t ->
  t = parsed (match c with Some s => s | None => "0.0.0" end).
Proof.
  destruct c as [[|a s]|]; simpl; intros H; inversion H; reflexivity.
Qed.

(** ** Instances and [match] *)

Lemma group_names_lit (s : string) : Regex.group_names (Regex.lit s) = [].
Proof. induction s; simpl; auto. Qed.

Lemma group_names_alts_lit (keys : list string) :
  Regex.group_names (Regex.alts (map Regex.lit keys)) = [].
Proof.
  induction keys as [|k [|k' keys] IH]; simpl in *; auto using group_names_lit.
  rewrite group_names_lit. exact IH.
Qed.

Lemma group_names_version_regexp (keys : list string) :
  Regex.group_names (version_regexp keys) = ["ver_str"; "operator"].
Proof.
  unfold version_regexp, VersionOperator.reg_text. simpl.
  rewrite group_names_alts_lit. reflexivity.
Qed.

Lemma match_unfold raiseError keys self txt :
  constructed keys self ->
  VersionOperator.match_ raiseError txt self =
    (result (match_of raiseError txt (operator_group keys txt)), self,
     logged (match_of raiseError txt (operator_group keys txt))).
Proof.
  unfold constructed. destruct self as [re vs]. simpl. intros H. inversion H. subst re. clear H.
  fold (version_regexp keys).
  unfold VersionOperator.match_, VersionOperator.mbind, VersionOperator.get_self, operator_group,
    Regex.search. cbn [VersionOperator.regexp].
  destruct (Regex.search_from (version_regexp keys) 0 txt) as [c|]; cbn [option_map].
  - unfold Regex.groupdict. cbn [Regex.re Regex.groups]. rewrite group_names_version_regexp.
    cbn [map dict_set Regex.lookup String.eqb Ascii.eqb Bool.eqb].
    unfold VersionOperator._operator_check_kw.
    cbn [find fst negb orb String.eqb Ascii.eqb Bool.eqb Regex.lookup].
    unfold match_of, VersionOperator.liftW, VersionOperator.mret, result, logged, bind.
    destruct (VersionOperator._operator_check raiseError (Some txt) (Regex.lookup "operator" c))
      as [[chk|e] l1]; cbn [fst snd]; [|reflexivity].
    destruct (VersionOperator._convert (Some txt)) as [[ev|e] l2]; cbn [fst snd]; [|reflexivity].
    reflexivity.
  - unfold match_of, VersionOperator.liftW, VersionOperator.mret, result, logged, bind.
    destruct (log_error raiseError _) as [[[]|e] l1]; cbn [fst snd]; reflexivity.
Qed.

(** ** The order of [OPERATOR.keys()]

    The alternation of the pattern lists the symbols in the order of
    [OPERATOR.keys()].  A statement on a given text is settled for every
    order by running the search on each of them. *)

Lemma list_eqb_eq (l1 : list string) : forall l2, list_eqb l1 l2 = true -> l1 = l2.
Proof.
  induction l1 as [|x l1 IH]; intros [|y l2]; simpl; try discriminate; auto.
  intros H. apply andb_prop in H as [Hx Hl]. apply String.eqb_eq in Hx.
  apply IH in Hl. now subst.
Qed.

Lemma nodupb_NoDup (l : list string) : NoDup l -> nodupb l = true.
Proof.
  induction 1 as [|x l Hx Hl IH]; simpl; [reflexivity|].
  rewrite IH, andb_true_r. apply negb_true_iff.
  destruct (existsb (String.eqb x) l) eqn:E; [|reflexivity].
  apply existsb_exists in E as (y & Hy & Hxy). apply String.eqb_eq in Hxy.
  subst. contradiction.
Qed.

Lemma key_orders_sweep :
  forallb (fun a => forallb (fun b => forallb (fun c =>
  forallb (fun d => forallb (fun e => forallb (fun f =>
    listed [a; b; c; d; e; f])
  OPERATOR_keys) OPERATOR_keys) OPERATOR_keys)
  OPERATOR_keys) OPERATOR_keys) OPERATOR_keys = true.
Proof. vm_cast_no_check (eq_refl true). Qed.

Lemma key_orders_complete (keys : list string) :
  Permutation keys OPERATOR_keys -> In keys key_orders.
Proof.
  intros Hp.
  assert (Hlen : length keys = 6%nat) by (now rewrite (Permutation_length Hp)).
  assert (Hnd : NoDup keys).
  { apply (Permutation_NoDup (Permutation_sym Hp)).
    unfold OPERATOR_keys. simpl.
    repeat (constructor; [simpl; intuition discriminate|]). constructor. }
  assert (Hin : forall x, In x keys -> In x OPERATOR_keys)
    by (intros x; apply (Permutation_in x Hp)).
  destruct keys as [|a [|b [|c [|d [|e [|f [|g keys]]]]]]]; try discriminate.
  pose proof key_orders_sweep as S.
  rewrite forallb_forall in S. specialize (S a (Hin a ltac:(simpl; auto))).
  rewrite forallb_forall in S. specialize (S b (Hin b ltac:(simpl; auto))).
  rewrite forallb_forall in S. specialize (S c (Hin c ltac:(simpl; auto))).
  rewrite forallb_forall in S. specialize (S d (Hin d ltac:(simpl; auto))).
  rewrite forallb_forall in S. specialize (S e (Hin e ltac:(simpl; auto 7))).
  rewrite forallb_forall in S. specialize (S f (Hin f ltac:(simpl; auto 8))).
  unfold listed in S. rewrite (nodupb_NoDup _ Hnd) in S.
  apply existsb_exists in S as (l & Hl & E).
  apply list_eqb_eq in E. now subst.
Qed.

Lemma found_eqb_eq (x y : option (option string)) : found_eqb x y = true -> x = y.
Proof.
  destruct x as [[a|]|], y as [[b|]|]; simpl; try discriminate; auto.
  intros H. apply String.eqb_eq in H. now subst.
Qed.

(** The group [operator] found on a text is the same for every order of
    the keys as soon as it is so on each of the 720 orders. *)
Lemma operator_group_any_order (txt : string) (expected : option (option string)) :
  forallb (fun keys => found_eqb (operator_group keys txt) expected) key_orders = true ->
  forall keys, Permutation keys OPERATOR_keys -> operator_group keys txt = expected.
Proof.
  intros H keys Hp. rewrite forallb_forall in H.
  apply found_eqb_eq, H, key_orders_complete, Hp.
Qed.

(** ** [match] leaves the instance alone *)

Lemma match_keeps_self raiseError txt self :
  instance_after (VersionOperator.match_ raiseError txt self) = self.
Proof.
  unfold instance_after, VersionOperator.match_, VersionOperator.mbind,
    VersionOperator.get_self, VersionOperator.liftW, VersionOperator.mret.
  destruct (Regex.search (VersionOperator.regexp self) txt) as [m|].
  - destruct (VersionOperator._operator_check_kw raiseError _) as [[chk|e] l1];
      cbn [fst snd]; [|reflexivity].
    destruct (match Regex.lookup "ver_str" _ with Some v => _ | None => _ end)
      as [[ev|e] l2]; cbn [fst snd]; reflexivity.
  - destruct (log_error raiseError _) as [[[]|e] l1]; cbn [fst snd]; reflexivity.
Qed.

(** C9.  [match] is a function of the text that leaves the instance as it
    found it: after a call the instance, and so its list [versions], is the
    one before the call, and a second call on the same text returns what the
    first returned, with the same text, operator symbol and version. *)
Theorem match_pure_idempotent (raiseError : bool) (txt : string)
    (self : VersionOperator.instance) :
  let first := VersionOperator.match_ raiseError txt self in
  let second := VersionOperator.match_ raiseError txt (instance_after first) in
  instance_after first = self /\
  VersionOperator.versions (instance_after first) = VersionOperator.versions self /\
  VersionOperator.versions (instance_after second) = VersionOperator.versions self /\
  second = first /\
  fields (outcome_of second) = fields (outcome_of first).
Proof.
  cbv zeta. rewrite !match_keeps_self. repeat split; reflexivity.
Qed.

(** ** The direction of the predicate *)

Lemma operator_check_known raiseError ver_str symbol f :
  Regex.lookup symbol VersionOperator.OPERATOR = Some f ->
  ver_str <> "" ->
  exists chk l,
    VersionOperator._operator_check raiseError (Some ver_str) (Some symbol) = (Ok chk, l) /\
    forall c, result (chk c) = on_candidate (f (parsed ver_str)) c.
Proof.
  intros Hf Hne. unfold VersionOperator._operator_check.
  rewrite (convert_text _ Hne), Hf. cbn.
  eexists. eexists. split; [reflexivity|].
  intros c. unfold on_candidate, result, bind.
  destruct (VersionOperator._convert c) as [[t|e] l]; reflexivity.
Qed.

Lemma search_nonempty keys txt c :
  Regex.search_from (version_regexp keys) 0 txt = Some c -> txt <> "".
Proof. intros H ->. discriminate H. Qed.

Lemma match_of_some raiseError txt symbol f :
  Regex.lookup symbol VersionOperator.OPERATOR = Some f ->
  txt <> "" ->
  exists d,
    result (match_of raiseError txt (Some (Some symbol))) = Ok (Some d) /\
    VersionOperator.ver_str d = txt /\
    VersionOperator.operator d = Some symbol /\
    VersionOperator.easyversion d = parsed txt /\
    result (VersionOperator._operator_check raiseError (Some txt) (Some symbol))
      = Ok (VersionOperator.check_fn d) /\
    forall c, result (VersionOperator.check_fn d c) = on_candidate (f (parsed txt)) c.
Proof.
  intros Hf Hne.
  destruct (operator_check_known raiseError txt symbol f Hf Hne) as (chk & l & E & Hc).
  unfold match_of. rewrite E, (convert_text _ Hne). cbn.
  eexists. split; [reflexivity|]. cbn. repeat split; auto.
Qed.

Lemma match_result_cases raiseError keys self txt d :
  constructed keys self ->
  outcome_of (VersionOperator.match_ raiseError txt self) = Ok (Some d) ->
  txt <> "" /\
  operator_group keys txt = Some (VersionOperator.operator d) /\
  VersionOperator.ver_str d = txt /\
  VersionOperator.easyversion d = parsed txt /\
  result (VersionOperator._operator_check raiseError (Some txt) (VersionOperator.operator d))
    = Ok (VersionOperator.check_fn d).
Proof.
  intros Hc H. rewrite (match_unfold raiseError keys self txt Hc) in H.
  unfold outcome_of in H. cbn [fst] in H.
  assert (Hne : txt <> "").
  { intros ->. unfold operator_group in H.
    change (Regex.search_from (version_regexp keys) 0 "") with (@None Regex.caps) in H.
    cbn in H. destruct raiseError; discriminate H. }
  split; [exact Hne|].
  destruct (operator_group keys txt) as [o|].
  - unfold match_of, result, bind in H.
    destruct (VersionOperator._operator_check raiseError (Some txt) o) as [[chk|e] l1] eqn:E;
      [|discriminate H].
    rewrite (convert_text _ Hne) in H. cbn in H. inversion H. subst d. cbn.
    repeat split. unfold result. now rewrite E.
  - cbn in H. destruct raiseError; discriminate H.
Qed.

Lemma operator_keys_lookup (OP : string) :
  In OP OPERATOR_keys -> exists f, Regex.lookup OP VersionOperator.OPERATOR = Some f.
Proof.
  unfold OPERATOR_keys. simpl.
  intros [<-|[<-|[<-|[<-|[<-|[<-|[]]]]]]]; eexists; reflexivity.
Qed.

(** The operator of a result of [match] is one of the six symbols. *)
Lemma match_operator_known raiseError keys self txt d symbol :
  Permutation keys OPERATOR_keys ->
  constructed keys self ->
  outcome_of (VersionOperator.match_ raiseError txt self) = Ok (Some d) ->
  VersionOperator.operator d = Some symbol ->
  exists f, Regex.lookup symbol VersionOperator.OPERATOR = Some f.
Proof.
  intros Hp Hc H Hop.
  destruct (match_result_cases _ _ _ _ _ Hc H) as (_ & Hg & _).
  unfold operator_group in Hg.
  destruct (Regex.search_from (version_regexp keys) 0 txt) as [c|] eqn:S;
    [|discriminate Hg].
  cbn in Hg. inversion Hg as [Hl]. rewrite Hop in Hl.
  destruct (version_regexp_match keys txt c S)
    as (tok & nl & _ & _ & [(Ho & _) | (op & Ho & Hin & _)]); [congruence|].
  assert (op = symbol) by congruence. subst op.
  apply operator_keys_lookup.
  destruct Hin as [-> | Hin].
  - apply Permutation_length in Hp. discriminate Hp.
  - exact (Permutation_in _ Hp Hin).
Qed.

(** C1.  The predicate that [_operator_check] builds for a version text
    and one of the six symbols applies the symbol's relation with the
    constraint's version as first argument and the candidate's version as
    second, after converting the candidate; so does the predicate of a
    result of [match], whose version is [easyversion] and whose operator,
    when it has one, is one of the six symbols.  For [>] the value is
    [constraint > candidate]: the constraint [5_>] holds of the candidate 4
    and not of 6, although 6 is above the constraint's version. *)
Theorem predicate_direction (raiseError : bool) (keys : list string) :
  Permutation keys OPERATOR_keys ->
  (forall ver_str symbol f,
      Regex.lookup symbol VersionOperator.OPERATOR = Some f ->
      ver_str <> "" ->
      exists chk,
        result (VersionOperator._operator_check raiseError (Some ver_str) (Some symbol))
          = Ok chk /\
        forall c, result (chk c) = on_candidate (f (parsed ver_str)) c) /\
  (forall self txt d symbol,
      constructed keys self ->
      outcome_of (VersionOperator.match_ raiseError txt self) = Ok (Some d) ->
      VersionOperator.operator d = Some symbol ->
      exists f,
        Regex.lookup symbol VersionOperator.OPERATOR = Some f /\
        forall c,
          result (VersionOperator.check_fn d c)
            = on_candidate (f (VersionOperator.easyversion d)) c) /\
  Regex.lookup ">" VersionOperator.OPERATOR = Some op_gt /\
  (forall self,
      constructed keys self ->
      exists d,
        outcome_of (VersionOperator.match_ raiseError "5_>" self) = Ok (Some d) /\
        VersionOperator.operator d = Some ">" /\
        result (VersionOperator.check_fn d (Some "4")) = Ok true /\
        result (VersionOperator.check_fn d (Some "6")) = Ok false /\
        op_gt (VersionOperator.easyversion d) (parsed "6") = false /\
        op_gt (parsed "6") (VersionOperator.easyversion d) = true).
Proof.
  intros Hp. split; [|split; [|split]].
  - intros ver_str symbol f Hf Hne.
    destruct (operator_check_known raiseError ver_str symbol f Hf Hne)
      as (chk & l & E & Hc).
    exists chk. unfold result. rewrite E. split; [reflexivity | exact Hc].
  - intros self txt d symbol Hc H Hop.
    destruct (match_operator_known _ _ _ _ _ _ Hp Hc H Hop) as (f & Hf).
    exists f. split; [exact Hf|]. intros c.
    destruct (match_result_cases _ _ _ _ _ Hc H) as (Hne & _ & _ & Hev & Hchk).
    rewrite Hop in Hchk.
    destruct (operator_check_known raiseError txt symbol f Hf Hne)
      as (chk & l & E & Hcand).
    unfold result in Hchk. rewrite E in Hchk. cbn in Hchk. inversion Hchk; subst chk.
    rewrite Hev. apply Hcand.
  - reflexivity.
  - intros self Hc.
    assert (G : operator_group keys "5_>" = Some (Some ">")).
    { apply operator_group_any_order; [vm_cast_no_check (eq_refl true) | exact Hp]. }
    destruct (match_of_some raiseError "5_>" ">" op_gt eq_refl ltac:(discriminate))
      as (d & Hd & _ & Hop & Hev & _ & Hcand).
    exists d. unfold outcome_of. rewrite (match_unfold raiseError keys self _ Hc), G.
    cbn [fst]. split; [exact Hd|]. split; [exact Hop|].
    rewrite !Hcand, Hev. repeat split; reflexivity.
Qed.

Lemma predicate_direction_witness :
  exists chk,
    result (VersionOperator._operator_check true (Some "5") (Some ">")) = Ok chk /\
    forall c, result (chk c) = on_candidate (op_gt (parsed "5")) c.
Proof.
  apply (proj1 (predicate_direction true OPERATOR_keys (Permutation_refl _))
           "5" ">" op_gt); [reflexivity | discriminate].
Defined.

(** ** The operator symbol of a match *)

Lemma operator_group_5_0 (keys : list string) (OP : string) :
  Permutation keys OPERATOR_keys ->
  In OP OPERATOR_keys ->
  operator_group keys ("5.0_" ++ OP) = Some (Some OP).
Proof.
  intros Hp. unfold OPERATOR_keys at 1. simpl.
  intros [<-|[<-|[<-|[<-|[<-|[<-|[]]]]]]];
    (apply operator_group_any_order; [vm_cast_no_check (eq_refl true) | exact Hp]).
Qed.

(** C6.  For each of the six symbols OP, [match] on the text 5.0_OP
    returns a result, and the operator of the result is OP; the instance is
    unchanged. *)
Theorem operator_round_trip (raiseError : bool) (keys : list string) :
  Permutation keys OPERATOR_keys ->
  forall OP, In OP OPERATOR_keys ->
  forall self, constructed keys self ->
  exists d l,
    VersionOperator.match_ raiseError ("5.0_" ++ OP) self = (Ok (Some d), self, l) /\
    VersionOperator.operator d = Some OP.
Proof.
  intros Hp OP Hin self Hc.
  destruct (operator_keys_lookup OP Hin) as (f & Hf).
  destruct (match_of_some raiseError ("5.0_" ++ OP) OP f Hf ltac:(discriminate))
    as (d & Hd & _ & Hop & _).
  exists d. eexists.
  rewrite (match_unfold raiseError keys self _ Hc), (operator_group_5_0 keys OP Hp Hin).
  rewrite Hd. split; [reflexivity | exact Hop].
Qed.

Lemma operator_round_trip_witness :
  exists d l,
    VersionOperator.match_ true ("5.0_" ++ ">=")
      (VersionOperator.mkInstance (version_regexp OPERATOR_keys) [])
    = (Ok (Some d), VersionOperator.mkInstance (version_regexp OPERATOR_keys) [], l) /\
    VersionOperator.operator d = Some ">=".
Proof.
  apply (operator_round_trip true OPERATOR_keys (Permutation_refl _) ">=").
  - simpl. tauto.
  - reflexivity.
Defined.

(** ** The operator of a text without a suffix *)

(** C3, on the code.  On the text 1.2.3 the group [operator] takes no
    part in the match and [groupdict] gives it as [None]; [match] hands
    that [None] to [_operator_check], so the default [==] of the parameter
    is not used.  With a logger whose [error] raises, [match] raises.  With
    one whose [error] returns, the operator of the result is [None] and the
    predicate raises [NameError] on every candidate that converts.  Called
    without the keyword [operator], [_operator_check] does build the
    equality predicate. *)
Theorem default_operator_not_applied (keys : list string) :
  Permutation keys OPERATOR_keys ->
  forall self, constructed keys self ->
  outcome_of (VersionOperator.match_ true "1.2.3" self)
    = Raise (EasyBuildError
               "Failed to match specified operator None to operator function") /\
  (exists d,
      outcome_of (VersionOperator.match_ false "1.2.3" self) = Ok (Some d) /\
      VersionOperator.operator d = None /\
      forall c,
        result (VersionOperator.check_fn d c) =
          match result (VersionOperator._convert c) with
          | Ok _ => Raise unbound_op
          | Raise e => Raise e
          end) /\
  (forall raiseError,
      exists chk,
        result (VersionOperator._operator_check_kw raiseError [("ver_str", Some "1.2.3")])
          = Ok chk /\
        forall c, result (chk c) = on_candidate (op_eq (parsed "1.2.3")) c).
Proof.
  intros Hp self Hc.
  assert (G : operator_group keys "1.2.3" = Some None).
  { apply operator_group_any_order; [vm_cast_no_check (eq_refl true) | exact Hp]. }
  unfold outcome_of. rewrite !(match_unfold _ keys self _ Hc), G.
  split; [reflexivity|]. split.
  - eexists. split; [reflexivity|]. split; [reflexivity|].
    intros c. cbn. unfold result, bind.
    destruct (VersionOperator._convert c) as [[t|e] l]; reflexivity.
  - intros raiseError.
    destruct (operator_check_known raiseError "1.2.3" "==" op_eq eq_refl ltac:(discriminate))
      as (chk & l & E & Hcand).
    exists chk. split; [|exact Hcand].
    unfold VersionOperator._operator_check_kw. cbn [find fst negb orb String.eqb Ascii.eqb Bool.eqb Regex.lookup].
    unfold result. now rewrite E.
Qed.

Lemma default_operator_not_applied_witness :
  outcome_of (VersionOperator.match_ true "1.2.3"
                (VersionOperator.mkInstance (version_regexp OPERATOR_keys) []))
    = Raise (EasyBuildError
               "Failed to match specified operator None to operator function").
Proof.
  apply (default_operator_not_applied OPERATOR_keys (Permutation_refl _)
           (VersionOperator.mkInstance (version_regexp OPERATOR_keys) []) eq_refl).
Defined.

(** ** The store after [add] *)

Lemma add_unfold raiseError keys self txt :
  constructed keys self ->
  VersionOperator.add raiseError txt self
    = add_with raiseError (operator_group keys txt) txt self.
Proof.
  intros Hc. unfold VersionOperator.add, add_with.
  unfold VersionOperator.mbind at 1 5.
  rewrite (match_unfold raiseError keys self txt Hc).
  unfold VersionOperator.liftW at 4. unfold result, logged.
  destruct (match_of raiseError txt (operator_group keys txt)) as [[o|e] l]; reflexivity.
Qed.

Lemma add_keeps_regexp raiseError txt self :
  VersionOperator.regexp (instance_after (VersionOperator.add raiseError txt self))
    = VersionOperator.regexp self.
Proof.
  unfold instance_after, VersionOperator.add.
  unfold VersionOperator.mbind at 1.
  pose proof (match_keeps_self raiseError txt self) as K. unfold instance_after in K.
  destruct (VersionOperator.match_ raiseError txt self) as [[[[d|]|e] self'] l];
    cbn [fst snd] in K; subst self'; cbn [fst snd].
  - unfold VersionOperator.mbind, VersionOperator.get_self, VersionOperator.liftW,
      VersionOperator.set_versions.
    destruct (VersionOperator.insert_index _ _ _) as [[i|e] l2]; reflexivity.
  - unfold VersionOperator.liftW.
    destruct (log_error raiseError _) as [[[]|e] l2]; reflexivity.
  - reflexivity.
Qed.

Lemma add_all_unfold raiseError keys txts :
  forall self,
    constructed keys self ->
    add_all raiseError txts self = add_all_with raiseError keys txts self.
Proof.
  induction txts as [|txt txts IH]; intros self Hc; [reflexivity|].
  unfold add_all, add_all_with. cbn [fold_left].
  rewrite <- (add_unfold raiseError keys self txt Hc).
  apply IH. unfold constructed. rewrite add_keeps_regexp. exact Hc.
Qed.

(** C2, on the code.  The loop of [add] stops at the first stored entry
    that the new version is strictly below and inserts there, and inserts
    at the front when there is none.  Starting from an empty store, adding
    1.0_==, 3.0_==, 2.0_== leaves 2.0_==, 3.0_==, 1.0_==, which is not
    descending.  For the texts 1.0, 3.0, 2.0 without a symbol: with a logger
    whose [error] returns the store ends as 2.0, 3.0, 1.0; with one whose
    [error] raises every call raises and the store stays empty. *)
Theorem add_breaks_descending_order (raiseError : bool) (keys : list string) :
  Permutation keys OPERATOR_keys ->
  forall self,
    constructed keys self ->
    VersionOperator.versions self = [] ->
    stored (add_all raiseError ["1.0_=="; "3.0_=="; "2.0_=="] self)
      = ["2.0_=="; "3.0_=="; "1.0_=="] /\
    descending (VersionOperator.versions
                  (add_all raiseError ["1.0_=="; "3.0_=="; "2.0_=="] self)) = false /\
    stored (add_all false ["1.0"; "3.0"; "2.0"] self) = ["2.0"; "3.0"; "1.0"] /\
    descending (VersionOperator.versions
                  (add_all false ["1.0"; "3.0"; "2.0"] self)) = false /\
    stored (add_all true ["1.0"; "3.0"; "2.0"] self) = [] /\
    stored (add_all raiseError ["1.0"; "3.0"; "2.0"] self) <> ["3.0"; "2.0"; "1.0"].
Proof.
  intros Hp self Hc Hvs.
  assert (G : forall txt expected,
             forallb (fun keys => found_eqb (operator_group keys txt) expected)
               key_orders = true ->
             operator_group keys txt = expected)
    by (intros txt expected H; now apply operator_group_any_order).
  rewrite !(add_all_unfold _ keys _ self Hc).
  unfold add_all_with. cbn [fold_left].
  rewrite (G "1.0_==" (Some (Some "=="))) by (vm_cast_no_check (eq_refl true)).
  rewrite (G "3.0_==" (Some (Some "=="))) by (vm_cast_no_check (eq_refl true)).
  rewrite (G "2.0_==" (Some (Some "=="))) by (vm_cast_no_check (eq_refl true)).
  rewrite (G "1.0" (Some None)) by (vm_cast_no_check (eq_refl true)).
  rewrite (G "3.0" (Some None)) by (vm_cast_no_check (eq_refl true)).
  rewrite (G "2.0" (Some None)) by (vm_cast_no_check (eq_refl true)).
  destruct self as [re vs]. cbn in Hvs. subst vs.
  destruct raiseError; vm_compute; repeat split; discriminate.
Qed.

Lemma add_breaks_descending_order_witness :
  stored (add_all true ["1.0_=="; "3.0_=="; "2.0_=="]
            (VersionOperator.mkInstance (version_regexp OPERATOR_keys) []))
    = ["2.0_=="; "3.0_=="; "1.0_=="].
Proof.
  apply (add_breaks_descending_order true OPERATOR_keys (Permutation_refl _)
           (VersionOperator.mkInstance (version_regexp OPERATOR_keys) [])
           eq_refl eq_refl).
Defined.

(** ** [toolchain_match] *)

Lemma toolchain_init_attributes raiseError keys tc_names self :
  result (ToolchainOperator.init raiseError keys tc_names) = Ok self ->
  exists regexp, self = [("regexp", regexp)].
Proof.
  unfold ToolchainOperator.init, result, bind.
  destruct (ToolchainOperator._operator_regexp raiseError keys tc_names) as [[r|e] l];
    cbn; intros H; inversion H. eauto.
Qed.

Lemma toolchain_init_ok raiseError keys tc_names :
  result (ToolchainOperator.init raiseError keys tc_names)
    = Ok [("regexp", toolchain_regexp keys tc_names)].
Proof. reflexivity. Qed.

Lemma any_key_order (P : list string -> bool) :
  forallb P key_orders = true ->
  forall keys, Permutation keys OPERATOR_keys -> P keys = true.
Proof.
  intros H keys Hp. rewrite forallb_forall in H.
  apply H, key_orders_complete, Hp.
Qed.

Lemma dict_eqb_eq (d1 : dict) : forall d2, dict_eqb d1 d2 = true -> d1 = d2.
Proof.
  induction d1 as [|[k1 v1] d1 IH]; intros [|[k2 v2] d2]; simpl;
    try discriminate; auto.
  intros H. apply andb_prop in H as [H Hd]. apply andb_prop in H as [Hk Hv].
  apply String.eqb_eq in Hk. apply IH in Hd. subst.
  destruct v1, v2; simpl in Hv; try discriminate; auto.
  apply String.eqb_eq in Hv. now subst.
Qed.

Lemma groups_eqb_eq (x y : option dict) : groups_eqb x y = true -> x = y.
Proof.
  destruct x, y; simpl; try discriminate; auto.
  intros H. apply dict_eqb_eq in H. now subst.
Qed.

Lemma groups_any_order (pattern : list string -> Regex.regex) (txt : string)
    (expected : option dict) :
  forallb (fun keys => groups_eqb (search_groups (pattern keys) txt) expected)
    key_orders = true ->
  forall keys, Permutation keys OPERATOR_keys ->
  search_groups (pattern keys) txt = expected.
Proof.
  intros H keys Hp. apply groups_eqb_eq.
  apply (any_key_order _ H keys Hp).
Qed.

(** C4, as the code has it.  With the registry names goolf and intel, the
    pattern that [__init__] stores does not match goolf_>=2016a: a version
    expression starts with a word character and carries its operator as a
    suffix.  It matches goolf_2016a_>=, with the toolchain name goolf, the
    version expression 2016a_>=, the version text 2016a and the operator
    >=. *)
Theorem toolchain_pattern_operator_suffix (raiseError : bool)
    (keys tc_names : list string) :
  Permutation keys OPERATOR_keys ->
  registry tc_names ->
  result (ToolchainOperator.init raiseError keys tc_names)
    = Ok [("regexp", toolchain_regexp keys tc_names)] /\
  search_groups (toolchain_regexp keys tc_names) "goolf_>=2016a" = None /\
  search_groups (toolchain_regexp keys tc_names) "goolf_2016a_>="
    = Some [ ("toolchainname", Some "goolf");
             ("toolchainversion", Some "2016a_>=");
             ("ver_str", Some "2016a");
             ("operator", Some ">=") ].
Proof.
  intros Hp Hr. split; [reflexivity|].
  split; destruct Hr as [-> | ->];
    (apply (groups_any_order (fun keys => toolchain_regexp keys _));
     [vm_cast_no_check (eq_refl true) | exact Hp]).
Qed.

Lemma toolchain_pattern_operator_suffix_witness :
  search_groups (toolchain_regexp OPERATOR_keys ["goolf"; "intel"]) "goolf_>=2016a"
    = None.
Proof.
  apply (toolchain_pattern_operator_suffix true OPERATOR_keys ["goolf"; "intel"]
           (Permutation_refl _) (or_introl eq_refl)).
Defined.

(** C4, as the claim has it.  On the instance that [__init__] builds for
    the registry goolf, intel,
    [toolchain_match] on goolf_>=2016a raises [AttributeError]: the method
    reads [self.toolchain_regexp], and the pattern is stored as
    [self.regexp].  The pattern itself does not match the text. *)
Lemma toolchain_match_goolf_raises :
  result (self <- ToolchainOperator.init true OPERATOR_keys ["goolf"; "intel"] ;;
          ToolchainOperator.toolchain_match true OPERATOR_keys self "goolf_>=2016a")
    = Raise no_toolchain_regexp /\
  search_groups (toolchain_regexp OPERATOR_keys ["goolf"; "intel"]) "goolf_>=2016a"
    = None.
Proof. split; vm_compute; reflexivity. Qed.

(** [toolchain_match] raises on every text, whatever the registry. *)
Lemma toolchain_match_raises raiseError keys tc_names self txt :
  result (ToolchainOperator.init raiseError keys tc_names) = Ok self ->
  result (ToolchainOperator.toolchain_match raiseError keys self txt)
    = Raise no_toolchain_regexp.
Proof.
  intros H. destruct (toolchain_init_attributes _ _ _ _ H) as (r & ->).
  reflexivity.
Qed.

(** ** [set_configobj] *)

(** C5, on the code.  For a [DEFAULT] section with a key [version],
    [set_configobj] looks up [self.add_version], which the class does not
    define: the call raises [AttributeError] before the value is read, with
    nothing logged, for the value not_a_version_!! as for the value 1.0.
    The first does not match the version pattern and the second does. *)
Theorem default_version_attribute_error (raiseError : bool) :
  (forall value others rest,
      ConfigObjVersion.set_configobj raiseError
        (("DEFAULT", ("version", value) :: others) :: rest)
      = (Raise no_add_version, [])) /\
  ConfigObjVersion.init raiseError
    (Some [("DEFAULT", [("version", "not_a_version_!!")])])
    = (Raise no_add_version, []) /\
  ConfigObjVersion.init raiseError (Some [("DEFAULT", [("version", "1.0")])])
    = (Raise no_add_version, []) /\
  operator_group OPERATOR_keys "not_a_version_!!" = None /\
  operator_group OPERATOR_keys "1.0" = Some None.
Proof.
  split; [|split; [|split; [|split]]]; try reflexivity.
  all: vm_compute; reflexivity.
Qed.

(** ** The version of a result of [match] *)

Lemma ver_str_group_any_order (txt : string) (expected : option (option string)) :
  forallb (fun keys => found_eqb (ver_str_group keys txt) expected) key_orders = true ->
  forall keys, Permutation keys OPERATOR_keys -> ver_str_group keys txt = expected.
Proof.
  intros H keys Hp. apply found_eqb_eq.
  apply (any_key_order _ H keys Hp).
Qed.

Lemma suffix_changes_version (tok op nl : string) :
  version (parsed (tok ++ "_" ++ op ++ nl)) <> version (parsed tok).
Proof.
  intros E. apply (f_equal weight) in E. cbn [parsed version] in E.
  rewrite !weight_parse, nondig_append in E.
  change ("_" ++ op ++ nl)%string with (String "_" (op ++ nl)) in E.
  cbn [nondig] in E. change (counted "_") with true in E. cbv iota in E. lia.
Qed.

(** C10.  The version of a result of [match], and the version that its
    predicate compares candidates with, are those of the whole text given
    to [match]: [ver_str] is set to the text before both are built.  When
    the version equals that of the text of the group [ver_str], the text
    has no operator suffix; and a text without suffix is the text of the
    group, with at most a newline after it.  For 5.0_>= the group is 5.0
    and the version is that of 5.0_>=, with the components 5, 0 and the
    text _>=, where 5.0 has the components 5 and 0. *)
Theorem match_version_of_whole_text (raiseError : bool) (keys : list string) :
  Permutation keys OPERATOR_keys ->
  (forall self txt d,
      constructed keys self ->
      outcome_of (VersionOperator.match_ raiseError txt self) = Ok (Some d) ->
      VersionOperator.ver_str d = txt /\
      VersionOperator.easyversion d = parsed txt /\
      result (VersionOperator._operator_check raiseError (Some txt)
                (VersionOperator.operator d))
        = Ok (VersionOperator.check_fn d) /\
      (forall symbol f,
          VersionOperator.operator d = Some symbol ->
          Regex.lookup symbol VersionOperator.OPERATOR = Some f ->
          forall c,
            result (VersionOperator.check_fn d c) = on_candidate (f (parsed txt)) c) /\
      exists tok,
        ver_str_group keys txt = Some (Some tok) /\
        (version (VersionOperator.easyversion d) = version (parsed tok) ->
         VersionOperator.operator d = None) /\
        (VersionOperator.operator d = None ->
         txt = tok \/ txt = (tok ++ newline)%string)) /\
  (forall self,
      constructed keys self ->
      exists d,
        outcome_of (VersionOperator.match_ raiseError "5.0_>=" self) = Ok (Some d) /\
        ver_str_group keys "5.0_>=" = Some (Some "5.0") /\
        VersionOperator.easyversion d = parsed "5.0_>=" /\
        version (VersionOperator.easyversion d)
          = [LooseVersion.CInt 5; LooseVersion.CInt 0; LooseVersion.CStr "_>="] /\
        version (parsed "5.0") = [LooseVersion.CInt 5; LooseVersion.CInt 0]).
Proof.
  intros Hp. split.
  - intros self txt d Hc H.
    destruct (match_result_cases _ _ _ _ _ Hc H) as (Hne & Hg & Hs & Hev & Hchk).
    split; [exact Hs|]. split; [exact Hev|]. split; [exact Hchk|]. split.
    + intros symbol f Hop Hf c.
      destruct (operator_check_known raiseError txt symbol f Hf Hne)
        as (chk & l & E & Hcand).
      rewrite Hop in Hchk. unfold result in Hchk. rewrite E in Hchk.
      cbn in Hchk. inversion Hchk; subst chk. apply Hcand.
    + unfold operator_group in Hg. unfold ver_str_group.
      destruct (Regex.search_from (version_regexp keys) 0 txt) as [c|] eqn:S;
        [|discriminate Hg].
      cbn in Hg. inversion Hg as [Hop]. clear Hg.
      destruct (version_regexp_match keys txt c S)
        as (tok & nl & Hnl & Hv & [(Ho & Ht) | (op & Ho & _ & Ht)]).
      * exists tok. cbn. rewrite Hv. split; [reflexivity|].
        split; [intros _; congruence|]. intros _.
        destruct Hnl as [-> | ->]; [left; now rewrite append_nil_r in Ht | now right].
      * exists tok. cbn. rewrite Hv. split; [reflexivity|]. split.
        -- intros E. rewrite Hev, Ht in E. now apply suffix_changes_version in E.
        -- intros E. congruence.
  - intros self Hc.
    assert (G : operator_group keys "5.0_>=" = Some (Some ">=")).
    { apply operator_group_any_order; [vm_cast_no_check (eq_refl true) | exact Hp]. }
    assert (V : ver_str_group keys "5.0_>=" = Some (Some "5.0")).
    { apply ver_str_group_any_order; [vm_cast_no_check (eq_refl true) | exact Hp]. }
    destruct (match_of_some raiseError "5.0_>=" ">=" op_ge eq_refl ltac:(discriminate))
      as (d & Hd & _ & _ & Hev & _).
    exists d. unfold outcome_of. rewrite (match_unfold raiseError keys self _ Hc), G.
    cbn [fst]. split; [exact Hd|]. split; [exact V|]. split; [exact Hev|].
    rewrite Hev. split; reflexivity.
Qed.

Lemma match_version_of_whole_text_witness :
  exists d,
    outcome_of (VersionOperator.match_ true "5.0_>="
                  (VersionOperator.mkInstance (version_regexp OPERATOR_keys) []))
      = Ok (Some d) /\
    ver_str_group OPERATOR_keys "5.0_>=" = Some (Some "5.0") /\
    VersionOperator.easyversion d = parsed "5.0_>=" /\
    version (VersionOperator.easyversion d)
      = [LooseVersion.CInt 5; LooseVersion.CInt 0; LooseVersion.CStr "_>="] /\
    version (parsed "5.0") = [LooseVersion.CInt 5; LooseVersion.CInt 0].
Proof.
  apply (proj2 (match_version_of_whole_text true OPERATOR_keys (Permutation_refl _))
           (VersionOperator.mkInstance (version_regexp OPERATOR_keys) []) eq_refl).
Defined.

(** * Further properties *)

Section Completeness.

Import Regex.

Lemma star_none (p : ascii -> bool) (k : cont) :
  forall pre pos s' c,
    star p k pos (pre ++ s') c = None ->
    forallb_string p pre = true ->
    k (pos + String.length pre)%nat s' c = None.
Proof.
  induction pre as [|a pre IH]; intros pos s' c H Hp.
  - simpl in *. rewrite Nat.add_0_r.
    destruct s' as [|b s']; simpl in H; [exact H|].
    destruct (p b); [|exact H].
    destruct (star p k (S pos) s' c); [discriminate | exact H].
  - simpl in Hp. apply andb_prop in Hp as [Ha Hp].
    simpl in H. rewrite Ha in H.
    destruct (star p k (S pos) (pre ++ s') c) eqn:E; [discriminate|].
    simpl. rewrite <- Nat.add_succ_comm. now apply IH.
Qed.

(** When the search from a pattern fails, every way the pattern can take
    a prefix of the text leads to a failure of what follows. *)
Lemma rmatch_none (r : regex) :
  forall k pos s c,
    rmatch r k pos s c = None ->
    forall pre s' c',
      s = (pre ++ s')%string ->
      den r pos pre s' c c' ->
      k (pos + String.length pre)%nat s' c' = None.
Proof.
  induction r as [|a|p|r1 IH1 r2 IH2|r1 IH1 r2 IH2|r1 IH1|p|name r1 IH1| |];
    intros k pos s c H pre s' c' Hs D; simpl in H, D.
  - destruct D as (-> & ->). simpl in *. subst. now rewrite Nat.add_0_r.
  - destruct D as (-> & ->). subst s. simpl in *.
    rewrite Ascii.eqb_refl in H. now rewrite Nat.add_1_r.
  - destruct D as (b & Hb & -> & ->). subst s. simpl in *.
    rewrite Hb in H. now rewrite Nat.add_1_r.
  - destruct D as (p1 & p2 & cm & -> & D1 & D2). subst s.
    rewrite length_append, Nat.add_assoc.
    apply (IH2 k _ (p2 ++ s')%string cm); [|reflexivity|exact D2].
    apply (IH1 (rmatch r2 k) pos _ c H p1 (p2 ++ s')%string cm);
      [now rewrite append_assoc | exact D1].
  - destruct (rmatch r1 k pos s c) eqn:E; [discriminate|].
    destruct D as [D|D]; [eapply IH1 | eapply IH2]; eassumption.
  - destruct (rmatch r1 k pos s c) eqn:E; [discriminate|].
    destruct D as [D|(-> & ->)].
    + eapply IH1; eassumption.
    + simpl in *. subst. now rewrite Nat.add_0_r.
  - destruct D as (Hp & ->). subst s. exact (star_none p k pre pos s' c H Hp).
  - destruct D as (cm & D & ->).
    pose proof (IH1 _ pos s c H pre s' cm Hs D) as K. cbv beta in K.
    replace (pos + String.length pre - pos)%nat with (String.length pre) in K by lia.
    subst s. now rewrite substring_prefix in K.
  - destruct D as (-> & -> & ->). simpl in *. subst. exact H.
  - destruct D as (-> & Hr & ->). simpl in *. subst s. rewrite ?Nat.add_0_r.
    destruct Hr as [-> | ->]; exact H.
Qed.

Lemma den_lit_intro (s : string) :
  forall pos rest c, den (lit s) pos s rest c c.
Proof.
  induction s as [|a s IH]; intros pos rest c; simpl; [auto|].
  exists (String a ""), s, c. simpl. auto.
Qed.

Lemma den_alts_lit_intro (keys : list string) (op : string) :
  In op keys ->
  forall pos rest c, den (alts (map lit keys)) pos op rest c c.
Proof.
  induction keys as [|k keys IH]; intros Hin pos rest c; [destruct Hin|].
  destruct keys as [|k' keys].
  - destruct Hin as [-> | []]. simpl. apply den_lit_intro.
  - change (den (lit k) pos op rest c c
            \/ den (alts (map lit (k' :: keys))) pos op rest c c).
    destruct Hin as [-> | Hin]; [left; apply den_lit_intro | right; now apply IH].
Qed.

End Completeness.

(** ** Version texts and version expressions *)

Lemma forallb_string_append (p : ascii -> bool) (a b : string) :
  forallb_string p (a ++ b) = forallb_string p a && forallb_string p b.
Proof.
  induction a as [|c a IH]; simpl; [reflexivity|].
  rewrite IH. now rewrite andb_assoc.
Qed.

Lemma last_char_snoc (v : string) :
  forall b e, last_char b (v ++ String e "") = e.
Proof. induction v as [|c v IH]; intros b e; simpl; auto. Qed.

Lemma unsnoc (u : string) :
  forall b, u <> "" ->
  exists mid e, u = (mid ++ String e "")%string /\ last_char b u = e.
Proof.
  induction u as [|c u IH]; intros b Hu; [congruence|].
  destruct u as [|c' u].
  - exists "", c. auto.
  - destruct (IH c ltac:(discriminate)) as (mid & e & E & L).
    exists (String c mid), e. simpl. rewrite E at 1. split; [reflexivity|].
    exact L.
Qed.

Lemma word_nonspace (e : ascii) :
  VersionOperator.not_sep_nonword e = true -> VersionOperator.nonspace e = true.
Proof.
  destruct e as [[] [] [] [] [] [] [] []]; vm_compute; congruence.
Qed.

Section NamePattern.

Import Regex.

Lemma name_den_elim pos tok rest c c' :
  den name_pattern pos tok rest c c' -> is_name tok = true /\ c' = c.
Proof.
  unfold name_pattern. cbn [den].
  intros (u1 & u2 & c5 & -> & (b & Hb & -> & ->) & D).
  destruct D as [(v1 & v2 & c6 & -> & (Hv & ->) & (e & He & -> & ->)) | (-> & ->)].
  - split; [|reflexivity]. cbn. rewrite Hb, last_char_snoc, He.
    rewrite forallb_string_append, Hv. cbn. now rewrite (word_nonspace _ He).
  - split; [|reflexivity]. cbn. now rewrite Hb.
Qed.

Lemma name_den_intro pos tok rest c :
  is_name tok = true -> den name_pattern pos tok rest c c.
Proof.
  destruct tok as [|b u]; [discriminate|]. cbn [is_name]. intros H.
  apply andb_prop in H as [H He]. apply andb_prop in H as [Hb Hu].
  unfold name_pattern. cbn [den].
  exists (String b ""), u, c. split; [reflexivity|]. split; [eauto|].
  destruct u as [|a u]; [right; auto|]. left.
  destruct (unsnoc (String a u) b ltac:(discriminate)) as (mid & e & E & L).
  rewrite L in He. rewrite E in Hu. rewrite forallb_string_append in Hu.
  apply andb_prop in Hu as [Hmid _].
  exists mid, (String e ""), c. rewrite E. split; [reflexivity|].
  split; [auto|]. exists e. auto.
Qed.

Lemma search_from_start (r : regex) (txt : string) :
  search_from (Cat Bol r) 0 txt = rmatch (Cat Bol r) (fun _ _ c => Some c) 0 txt [].
Proof.
  destruct txt as [|a txt]; cbn [search_from];
    destruct (rmatch (Cat Bol r) _ 0 _ []) as [y|]; auto.
  now rewrite search_from_anchored by discriminate.
Qed.

(** A text on which the version pattern matches is a version expression,
    and the groups are its parts. *)
Lemma version_regexp_shape (keys : list string) (txt : string) (c : caps) :
  search_from (version_regexp keys) 0 txt = Some c ->
  exists tok nl,
    is_name tok = true /\
    (nl = "" \/ nl = newline) /\
    lookup "ver_str" c = Some tok /\
    ((lookup "operator" c = None /\ txt = (tok ++ nl)%string) \/
     (exists op, lookup "operator" c = Some op /\
                 (keys = [] \/ In op keys) /\
                 txt = (tok ++ "_" ++ op ++ nl)%string)).
Proof.
  unfold version_regexp. rewrite search_from_start. intros M.
  apply rmatch_sound in M as (pre & rest & c' & -> & D & K).
  inversion K; subst c'. clear K.
  unfold VersionOperator.reg_text in D.
  change (Cat (Cls VersionOperator.not_sep_nonword)
            (Opt (Cat (StarCls VersionOperator.nonspace)
                      (Cls VersionOperator.not_sep_nonword)))) with name_pattern in D.
  cbn [den] in D.
  destruct D as (p1 & p2 & c1 & -> & (_ & -> & ->) & D).
  destruct D as (q1 & q2 & c2 & -> & D & (-> & Hnl & ->)).
  destruct D as (t1 & t2 & c3 & -> & D1 & D2).
  destruct D1 as (c4 & D1 & ->).
  apply name_den_elim in D1 as (Hname & ->).
  exists t1, rest. split; [exact Hname|]. split; [exact Hnl|].
  destruct D2 as [(w1 & w2 & c7 & -> & Dsep & (c8 & Dops & ->)) | (-> & ->)].
  - apply (den_lit VersionOperator.SEPARATOR) in Dsep as (-> & ->).
    apply den_alts_lit in Dops as (-> & Hin).
    split; [reflexivity|]. right. exists w2. split; [reflexivity|].
    split; [exact Hin|]. cbn. rewrite !append_nil_r, !append_assoc. reflexivity.
  - split; [reflexivity|]. left. split; [reflexivity|].
    cbn. now rewrite !append_nil_r.
Qed.

(** The version pattern matches every version expression. *)
Lemma version_regexp_accepts (keys : list string) (txt : string) :
  version_expression keys txt ->
  search_from (version_regexp keys) 0 txt <> None.
Proof.
  intros (tok & nl & Hname & Hnl & Ht) N.
  unfold version_regexp in N. rewrite search_from_start in N.
  assert (Heol : forall pos c, den Eol pos "" nl c c)
    by (intros pos c; cbn; auto).
  destruct Ht as [-> | (op & Hin & ->)].
  - pose proof (rmatch_none _ _ _ _ _ N tok nl [("ver_str", tok)] eq_refl) as K.
    cbv beta in K. assert (Some [("ver_str", tok)] = None); [|discriminate].
    apply K. clear K N.
    unfold VersionOperator.reg_text.
    change (Cat (Cls VersionOperator.not_sep_nonword)
              (Opt (Cat (StarCls VersionOperator.nonspace)
                        (Cls VersionOperator.not_sep_nonword)))) with name_pattern.
    cbn [den].
    exists "", tok, []. split; [reflexivity|]. split; [auto|].
    exists tok, "", [("ver_str", tok)]. split; [now rewrite append_nil_r|].
    split; [|apply (Heol 0%nat)].
    exists tok, "", [("ver_str", tok)]. split; [now rewrite append_nil_r|].
    split; [|right; auto].
    exists []. split; [now apply name_den_intro | reflexivity].
  - set (c' := [("operator", op); ("ver_str", tok)]).
    pose proof (rmatch_none _ _ _ _ _ N (tok ++ "_" ++ op) nl c') as K.
    cbv beta in K. assert (Some c' = None); [|discriminate].
    apply K; [now rewrite !append_assoc|]. clear K N.
    unfold VersionOperator.reg_text.
    change (Cat (Cls VersionOperator.not_sep_nonword)
              (Opt (Cat (StarCls VersionOperator.nonspace)
                        (Cls VersionOperator.not_sep_nonword)))) with name_pattern.
    cbn [den].
    exists "", (tok ++ "_" ++ op)%string, []. split; [reflexivity|]. split; [auto|].
    exists (tok ++ "_" ++ op)%string, "", c'. split; [now rewrite append_nil_r|].
    split; [|apply (Heol 0%nat)].
    exists tok, ("_" ++ op)%string, [("ver_str", tok)]. split; [reflexivity|].
    split; [exists []; split; [now apply name_den_intro | reflexivity]|].
    left. exists "_", op, [("ver_str", tok)]. split; [reflexivity|].
    split; [apply (den_lit_intro "_")|].
    exists [("ver_str", tok)]. split; [now apply den_alts_lit_intro | reflexivity].
Qed.

End NamePattern.

(** ** The parts of a version expression are determined by its text *)

Lemma last_char_append (a b : string) :
  forall c,
    last_char c (a ++ b) =
      match b with
      | "" => last_char c a
      | String d b' => last_char d b'
      end.
Proof.
  induction a as [|x a IH]; intros c; simpl.
  - destruct b; reflexivity.
  - apply IH.
Qed.

Lemma final_append (a b : string) :
  final (a ++ b) = match final b with Some e => Some e | None => final a end.
Proof.
  destruct a as [|x a]; simpl.
  - destruct (final b); reflexivity.
  - rewrite last_char_append. destruct b; reflexivity.
Qed.

Lemma name_final (tok : string) :
  is_name tok = true ->
  exists e, final tok = Some e /\ VersionOperator.not_sep_nonword e = true.
Proof.
  destruct tok as [|b u]; [discriminate|]. cbn [is_name]. intros H.
  apply andb_prop in H as [_ He]. exists (last_char b u). auto.
Qed.

Lemma append_inj_length (x y : string) :
  forall a b,
    String.length a = String.length b ->
    (a ++ x = b ++ y)%string -> a = b /\ x = y.
Proof.
  induction a as [|c a IH]; intros [|d b] Hl H; simpl in *; try discriminate.
  - auto.
  - inversion H. subst d. injection Hl as Hl.
    destruct (IH b Hl H2) as (-> & ->). auto.
Qed.

Lemma append_inj_suffix (x y a b : string) :
  String.length x = String.length y ->
  (a ++ x = b ++ y)%string -> a = b /\ x = y.
Proof.
  intros Hl H. apply append_inj_length; [|exact H].
  apply (f_equal String.length) in H. rewrite !length_append in H. lia.
Qed.

(** The last character of a symbol is [=], [<] or [>]: not a character
    that ends a version text, and not a newline. *)
Lemma operator_final (OP : string) :
  In OP OPERATOR_keys ->
  exists e,
    final OP = Some e /\ VersionOperator.not_sep_nonword e = false /\
    final newline <> Some e.
Proof.
  unfold OPERATOR_keys. simpl.
  intros [<-|[<-|[<-|[<-|[<-|[<-|[]]]]]]]; eexists;
    (split; [reflexivity|]); split; try reflexivity; discriminate.
Qed.

Lemma final_operator_suffix (tok OP nl : string) :
  In OP OPERATOR_keys ->
  nl = "" \/ nl = newline ->
  final (tok ++ "_" ++ OP ++ nl) =
    match final nl with Some e => Some e | None => final OP end.
Proof.
  intros Hin Hnl. rewrite <- !append_assoc, !final_append.
  destruct (final nl); [reflexivity|].
  destruct (operator_final OP Hin) as (e & -> & _). reflexivity.
Qed.

Lemma final_operator_plain (tok OP : string) :
  In OP OPERATOR_keys -> final (tok ++ "_" ++ OP) = final OP.
Proof.
  intros Hin. rewrite final_append.
  unfold OPERATOR_keys in Hin. simpl in Hin.
  destruct Hin as [<-|[<-|[<-|[<-|[<-|[<-|[]]]]]]]; reflexivity.
Qed.

Lemma operator_suffix_unique (tok tok' OP OP' : string) :
  In OP OPERATOR_keys -> In OP' OPERATOR_keys ->
  (tok ++ "_" ++ OP = tok' ++ "_" ++ OP')%string ->
  tok = tok' /\ OP = OP'.
Proof.
  intros Hin Hin' H.
  assert (F : final OP = final OP').
  { rewrite <- (final_operator_plain tok OP Hin), <- (final_operator_plain tok' OP' Hin').
    now rewrite H. }
  unfold OPERATOR_keys in Hin, Hin'. simpl in Hin, Hin'.
  destruct Hin as [<-|[<-|[<-|[<-|[<-|[<-|[]]]]]]];
    destruct Hin' as [<-|[<-|[<-|[<-|[<-|[<-|[]]]]]]];
    try discriminate F;
    (apply append_inj_suffix in H; [|reflexivity]);
    destruct H as (-> & H); split; try reflexivity; discriminate H.
Qed.

(** The groups that the search finds on a version text and on a version
    text followed by a symbol, for every order of the keys. *)
Lemma expression_groups (keys : list string) (tok : string) :
  Permutation keys OPERATOR_keys ->
  is_name tok = true ->
  (operator_group keys tok = Some None /\
   ver_str_group keys tok = Some (Some tok)) /\
  (forall OP,
      In OP OPERATOR_keys ->
      operator_group keys (tok ++ "_" ++ OP) = Some (Some OP) /\
      ver_str_group keys (tok ++ "_" ++ OP) = Some (Some tok)).
Proof.
  intros Hp Hname.
  assert (Hkeys : forall op, keys = [] \/ In op keys -> In op OPERATOR_keys).
  { intros op [-> | Hin]; [|exact (Permutation_in _ Hp Hin)].
    apply Permutation_length in Hp. discriminate Hp. }
  destruct (name_final tok Hname) as (e & Fe & He).
  split.
  - assert (A : Regex.search_from (version_regexp keys) 0 tok <> None).
    { apply version_regexp_accepts. exists tok, "". rewrite append_nil_r. auto. }
    unfold operator_group, ver_str_group.
    destruct (Regex.search_from (version_regexp keys) 0 tok) as [c|] eqn:S;
      [|congruence]. clear A.
    destruct (version_regexp_shape keys tok c S)
      as (tok' & nl & Hname' & Hnl & Hv & [(Ho & Ht) | (op & Ho & Hin & Ht)]).
    + cbn. rewrite Hv, Ho.
      destruct Hnl as [-> | ->].
      * rewrite append_nil_r in Ht. subst tok'. auto.
      * apply (f_equal final) in Ht. rewrite final_append, Fe in Ht.
        cbn in Ht. inversion Ht. subst e. discriminate He.
    + apply Hkeys in Hin. apply (f_equal final) in Ht.
      rewrite (final_operator_suffix tok' op nl Hin Hnl), Fe in Ht.
      destruct (operator_final op Hin) as (e' & Fo & Ho' & _). rewrite Fo in Ht.
      destruct Hnl as [-> | ->]; cbn in Ht; inversion Ht; subst e;
        [congruence | discriminate He].
  - intros OP Hin.
    assert (A : Regex.search_from (version_regexp keys) 0 (tok ++ "_" ++ OP) <> None).
    { apply version_regexp_accepts. exists tok, "". split; [exact Hname|].
      split; [auto|]. right. exists OP. rewrite append_nil_r.
      split; [exact (Permutation_in _ (Permutation_sym Hp) Hin) | reflexivity]. }
    unfold operator_group, ver_str_group.
    destruct (Regex.search_from (version_regexp keys) 0 (tok ++ "_" ++ OP))
      as [c|] eqn:S; [|congruence]. clear A.
    destruct (operator_final OP Hin) as (eo & Fo & Hw & Hn).
    pose proof (final_operator_plain tok OP Hin) as FT. rewrite Fo in FT.
    destruct (version_regexp_shape keys _ c S)
      as (tok' & nl & Hname' & Hnl & Hv & [(Ho & Ht) | (op & Ho & Hin' & Ht)]).
    + exfalso. destruct (name_final tok' Hname') as (e' & Fe' & He').
      rewrite Ht, final_append, Fe' in FT.
      destruct Hnl as [-> | ->]; cbn in FT.
      * inversion FT. subst e'. congruence.
      * apply Hn. exact FT.
    + apply Hkeys in Hin'. cbn. rewrite Hv, Ho.
      assert (nl = "").
      { destruct Hnl as [E | ->]; [exact E|]. exfalso.
        rewrite Ht, (final_operator_suffix tok' op newline Hin' (or_intror eq_refl)) in FT.
        apply Hn. exact FT. }
      subst nl. rewrite append_nil_r in Ht.
      destruct (operator_suffix_unique _ _ _ _ Hin Hin' Ht) as (-> & ->). auto.
Qed.

(** ** Which texts [match] takes *)

Lemma shape_is_expression (keys : list string) (txt : string) (c : Regex.caps) :
  Permutation keys OPERATOR_keys ->
  Regex.search_from (version_regexp keys) 0 txt = Some c ->
  version_expression OPERATOR_keys txt.
Proof.
  intros Hp S.
  destruct (version_regexp_shape keys txt c S)
    as (tok & nl & Hname & Hnl & _ & [(_ & Ht) | (op & _ & Hin & Ht)]).
  - exists tok, nl. auto.
  - exists tok, nl. split; [exact Hname|]. split; [exact Hnl|]. right.
    exists op. split; [|exact Ht].
    destruct Hin as [-> | Hin]; [|exact (Permutation_in _ Hp Hin)].
    apply Permutation_length in Hp. discriminate Hp.
Qed.

Lemma expression_is_matched (keys : list string) (txt : string) :
  Permutation keys OPERATOR_keys ->
  version_expression OPERATOR_keys txt ->
  Regex.search_from (version_regexp keys) 0 txt <> None.
Proof.
  intros Hp (tok & nl & Hname & Hnl & Ht).
  apply version_regexp_accepts. exists tok, nl. split; [exact Hname|].
  split; [exact Hnl|]. destruct Ht as [Ht | (op & Hin & Ht)]; [now left | right].
  exists op. split; [exact (Permutation_in _ (Permutation_sym Hp) Hin) | exact Ht].
Qed.

Lemma match_of_found_differs raiseError txt o :
  result (match_of raiseError txt (Some o)) <> no_version_match raiseError txt.
Proof.
  unfold match_of, no_version_match, VersionOperator._operator_check, result, bind.
  destruct (VersionOperator._convert (Some txt)) as [[v|e] l] eqn:E.
  - destruct o as [symbol|].
    + destruct (Regex.lookup symbol VersionOperator.OPERATOR) as [f|];
        destruct raiseError; cbn; discriminate.
    + destruct raiseError; cbn; discriminate.
  - destruct txt as [|a txt]; cbn in E; inversion E.
    destruct raiseError; cbn; discriminate.
Qed.

(** X1.  [match] reports that the text is no version expression, by
    returning [None] or, with a logger whose [error] raises, by raising
    with that message, exactly for the texts that are not a version text
    followed by nothing or by the separator and one of the six symbols
    (and possibly one final newline). *)
Theorem match_rejects_iff (raiseError : bool) (keys : list string)
    (self : VersionOperator.instance) (txt : string) :
  Permutation keys OPERATOR_keys ->
  constructed keys self ->
  outcome_of (VersionOperator.match_ raiseError txt self)
    = no_version_match raiseError txt
  <-> ~ version_expression OPERATOR_keys txt.
Proof.
  intros Hp Hc. unfold outcome_of.
  rewrite (match_unfold raiseError keys self txt Hc). cbn [fst].
  unfold operator_group.
  destruct (Regex.search_from (version_regexp keys) 0 txt) as [c|] eqn:S; cbn [option_map].
  - split.
    + intros H. now apply match_of_found_differs in H.
    + intros N. exfalso. apply N. exact (shape_is_expression keys txt c Hp S).
  - split.
    + intros _ E. now apply (expression_is_matched keys txt Hp) in E.
    + intros _. unfold no_version_match. destruct raiseError; reflexivity.
Qed.

Lemma match_rejects_iff_witness :
  outcome_of (VersionOperator.match_ true "1.0 beta"
                (VersionOperator.mkInstance (version_regexp OPERATOR_keys) []))
    = no_version_match true "1.0 beta"
  <-> ~ version_expression OPERATOR_keys "1.0 beta".
Proof.
  apply (match_rejects_iff true OPERATOR_keys
           (VersionOperator.mkInstance (version_regexp OPERATOR_keys) [])
           "1.0 beta" (Permutation_refl _) eq_refl).
Defined.

(** X2.  For every version text [tok] and each of the six symbols OP,
    [match] on tok_OP returns a result and leaves the instance alone; the
    operator of the result is OP, its text and its version are those of
    the whole tok_OP, and its predicate applies the relation of OP with
    that version first. *)
Theorem match_operator_suffix (raiseError : bool) (keys : list string)
    (self : VersionOperator.instance) (tok OP : string) :
  Permutation keys OPERATOR_keys ->
  constructed keys self ->
  is_name tok = true ->
  In OP OPERATOR_keys ->
  exists d l f,
    VersionOperator.match_ raiseError (tok ++ "_" ++ OP) self = (Ok (Some d), self, l) /\
    VersionOperator.ver_str d = (tok ++ "_" ++ OP)%string /\
    VersionOperator.operator d = Some OP /\
    VersionOperator.easyversion d = parsed (tok ++ "_" ++ OP) /\
    Regex.lookup OP VersionOperator.OPERATOR = Some f /\
    forall c,
      result (VersionOperator.check_fn d c)
        = on_candidate (f (parsed (tok ++ "_" ++ OP))) c.
Proof.
  intros Hp Hc Hname Hin.
  destruct (operator_keys_lookup OP Hin) as (f & Hf).
  destruct (expression_groups keys tok Hp Hname) as (_ & G).
  destruct (G OP Hin) as (Hg & _).
  assert (Hne : (tok ++ "_" ++ OP)%string <> "") by (destruct tok; discriminate).
  destruct (match_of_some raiseError _ OP f Hf Hne)
    as (d & Hd & Hs & Hop & Hev & _ & Hcand).
  exists d, (logged (match_of raiseError (tok ++ "_" ++ OP) (Some (Some OP)))), f.
  rewrite (match_unfold raiseError keys self _ Hc), Hg, Hd. auto 10.
Qed.

Lemma match_operator_suffix_witness :
  exists d l f,
    VersionOperator.match_ true ("2016a" ++ "_" ++ "<=")
      (VersionOperator.mkInstance (version_regexp OPERATOR_keys) [])
    = (Ok (Some d), VersionOperator.mkInstance (version_regexp OPERATOR_keys) [], l) /\
    VersionOperator.ver_str d = ("2016a" ++ "_" ++ "<=")%string /\
    VersionOperator.operator d = Some "<=" /\
    VersionOperator.easyversion d = parsed ("2016a" ++ "_" ++ "<=") /\
    Regex.lookup "<=" VersionOperator.OPERATOR = Some f /\
    forall c,
      result (VersionOperator.check_fn d c)
        = on_candidate (f (parsed ("2016a" ++ "_" ++ "<="))) c.
Proof.
  apply (match_operator_suffix true OPERATOR_keys
           (VersionOperator.mkInstance (version_regexp OPERATOR_keys) [])
           "2016a" "<=" (Permutation_refl _) eq_refl eq_refl).
  simpl. tauto.
Defined.

(** X3.  For every version text without a symbol, [match] hands
    [operator=None] to [_operator_check]: with a logger whose [error]
    raises, [match] raises; with one whose [error] returns, the result has
    no operator and its predicate raises [NameError] on every candidate
    that converts. *)
Theorem match_without_suffix (keys : list string)
    (self : VersionOperator.instance) (tok : string) :
  Permutation keys OPERATOR_keys ->
  constructed keys self ->
  is_name tok = true ->
  outcome_of (VersionOperator.match_ true tok self)
    = Raise (EasyBuildError
               "Failed to match specified operator None to operator function") /\
  exists d,
    outcome_of (VersionOperator.match_ false tok self) = Ok (Some d) /\
    VersionOperator.ver_str d = tok /\
    VersionOperator.operator d = None /\
    VersionOperator.easyversion d = parsed tok /\
    forall c,
      result (VersionOperator.check_fn d c) =
        match result (VersionOperator._convert c) with
        | Ok _ => Raise unbound_op
        | Raise e => Raise e
        end.
Proof.
  intros Hp Hc Hname.
  destruct (expression_groups keys tok Hp Hname) as ((Hg & _) & _).
  assert (Hne : tok <> "") by (destruct tok; [discriminate Hname | discriminate]).
  unfold outcome_of. rewrite !(match_unfold _ keys self _ Hc), Hg.
  unfold match_of, VersionOperator._operator_check.
  rewrite (convert_text _ Hne). cbn. split; [reflexivity|].
  eexists. split; [reflexivity|]. cbn. repeat split.
  intros c. unfold result, bind.
  destruct (VersionOperator._convert c) as [[t|e] l]; reflexivity.
Qed.

Lemma match_without_suffix_witness :
  outcome_of (VersionOperator.match_ true "2016a"
                (VersionOperator.mkInstance (version_regexp OPERATOR_keys) []))
    = Raise (EasyBuildError
               "Failed to match specified operator None to operator function").
Proof.
  apply (match_without_suffix OPERATOR_keys
           (VersionOperator.mkInstance (version_regexp OPERATOR_keys) [])
           "2016a" (Permutation_refl _) eq_refl eq_refl).
Defined.

(** ** What [add] does to the store *)

Lemma insert_index_spec (new : EasyVersion) (vs : list VersionOperator.ver_dict) :
  forall idx,
    exists i,
      result (VersionOperator.insert_index new idx vs) = Ok i /\
      ((i = 0%nat /\ forallb (fun e => negb (above new e)) vs = true) \/
       (exists before e rest,
           vs = before ++ e :: rest /\
           i = (idx + length before)%nat /\
           forallb (fun e => negb (above new e)) before = true /\
           above new e = true)).
Proof.
  induction vs as [|v vs IH]; intros idx.
  - exists 0%nat. cbn. auto.
  - cbn [VersionOperator.insert_index].
    destruct (op_lt new (VersionOperator.easyversion v)) eqn:E.
    + exists idx. split; [reflexivity|]. right. exists [], v, vs.
      cbn. rewrite Nat.add_0_r. auto.
    + destruct (IH (S idx)) as (i & Hi & [(-> & Hall) | (before & e & rest & -> & -> & Hb & He)]).
      * exists 0%nat. split; [exact Hi|]. left. split; [reflexivity|].
        cbn. unfold above at 1. now rewrite E.
      * exists (S idx + length before)%nat. split; [exact Hi|]. right.
        exists (v :: before), e, rest. cbn. unfold above at 1. rewrite E.
        split; [reflexivity|]. split; [lia|]. auto.
Qed.

Lemma add_after_match raiseError txt self :
  VersionOperator.add raiseError txt self =
    match VersionOperator.match_ raiseError txt self with
    | (Ok (Some d), _, l) =>
        match VersionOperator.insert_index (VersionOperator.easyversion d) 0
                (VersionOperator.versions self) with
        | (Ok i, l') =>
            (Ok tt,
             VersionOperator.mkInstance (VersionOperator.regexp self)
               (VersionOperator.list_insert i d (VersionOperator.versions self)),
             l ++ (l' ++ [mkEntry DEBUG "Insert version {...} in index {...}"]))
        | (Raise e, l') => (Raise e, self, l ++ l')
        end
    | (Ok None, _, l) =>
        (fst (log_error raiseError ("version " ++ txt ++ " does not version_match")%string),
         self,
         l ++ snd (log_error raiseError ("version " ++ txt ++ " does not version_match")%string))
    | (Raise e, _, l) => (Raise e, self, l)
    end.
Proof.
  unfold VersionOperator.add. unfold VersionOperator.mbind at 1.
  pose proof (match_keeps_self raiseError txt self) as K. unfold instance_after in K.
  destruct (VersionOperator.match_ raiseError txt self) as [[[[d|]|e] self'] l];
    cbn [fst snd] in K; subst self'.
  - unfold VersionOperator.mbind, VersionOperator.get_self, VersionOperator.liftW,
      VersionOperator.set_versions.
    destruct (VersionOperator.insert_index _ _ _) as [[i|e] l2]; cbn [fst snd].
    + cbn. reflexivity.
    + cbn. reflexivity.
  - unfold VersionOperator.liftW. reflexivity.
  - reflexivity.
Qed.

Lemma match_none_logger raiseError txt self :
  outcome_of (VersionOperator.match_ raiseError txt self) = Ok None ->
  raiseError = false.
Proof.
  unfold outcome_of, VersionOperator.match_, VersionOperator.mbind,
    VersionOperator.get_self, VersionOperator.liftW, VersionOperator.mret.
  destruct (Regex.search (VersionOperator.regexp self) txt) as [m|].
  - destruct (VersionOperator._operator_check_kw raiseError _) as [[chk|e] l1];
      cbn [fst snd]; [|discriminate].
    destruct (match Regex.lookup "ver_str" _ with Some v => _ | None => _ end)
      as [[ev|e] l2]; cbn [fst snd]; discriminate.
  - destruct raiseError; [cbn; discriminate | reflexivity].
Qed.

(** X4.  [add] changes the store by one insertion or not at all.  When
    [match] returns a result, [add] returns normally and the store is the
    old one with that result put in at some index, so it is one longer and
    the old entries keep their order; when [match] returns [None] or
    raises, [add] does the same and the store is the old one.  The pattern
    of the instance is never changed. *)
Theorem add_store_effect (raiseError : bool) (txt : string)
    (self : VersionOperator.instance) :
  let after := instance_after (VersionOperator.add raiseError txt self) in
  VersionOperator.regexp after = VersionOperator.regexp self /\
  match outcome_of (VersionOperator.match_ raiseError txt self) with
  | Ok (Some d) =>
      outcome_of (VersionOperator.add raiseError txt self) = Ok tt /\
      exists i,
        (i <= length (VersionOperator.versions self))%nat /\
        VersionOperator.versions after
          = firstn i (VersionOperator.versions self)
            ++ d :: skipn i (VersionOperator.versions self) /\
        length (VersionOperator.versions after)
          = S (length (VersionOperator.versions self))
  | Ok None =>
      outcome_of (VersionOperator.add raiseError txt self) = Ok tt /\
      VersionOperator.versions after = VersionOperator.versions self
  | Raise e =>
      outcome_of (VersionOperator.add raiseError txt self) = Raise e /\
      VersionOperator.versions after = VersionOperator.versions self
  end.
Proof.
  cbv zeta. split; [apply add_keeps_regexp|].
  pose proof (match_none_logger raiseError txt self) as L.
  rewrite add_after_match. unfold outcome_of, instance_after in *.
  destruct (VersionOperator.match_ raiseError txt self) as [[[[d|]|e] self'] l];
    cbn [fst snd] in *.
  - destruct (insert_index_spec (VersionOperator.easyversion d)
                (VersionOperator.versions self) 0) as (i & Hi & Hpos).
    unfold result in Hi.
    destruct (VersionOperator.insert_index _ _ _) as [[j|e] l2]; cbn [fst] in Hi;
      [|discriminate]. inversion Hi. subst j. cbn [fst snd].
    split; [reflexivity|]. exists i.
    assert (Hle : (i <= length (VersionOperator.versions self))%nat).
    { destruct Hpos as [(-> & _) | (before & e & rest & E & -> & _)]; [lia|].
      rewrite E, length_app. cbn. lia. }
    split; [exact Hle|]. split; [reflexivity|].
    cbn. unfold VersionOperator.list_insert.
    rewrite length_app. cbn. rewrite length_firstn, length_skipn. lia.
  - rewrite (L eq_refl). cbn. auto.
  - cbn. auto.
Qed.

(** X5.  Where [add] puts a new entry: directly before the first stored
    entry that the new version is strictly below, every entry before that
    one being at or below the new version; and at the front of the store
    when the new version is below no stored entry. *)
Theorem add_position (raiseError : bool) (txt : string)
    (self : VersionOperator.instance) (d : VersionOperator.ver_dict) :
  outcome_of (VersionOperator.match_ raiseError txt self) = Ok (Some d) ->
  placed d (VersionOperator.versions self)
    (VersionOperator.versions
       (instance_after (VersionOperator.add raiseError txt self))).
Proof.
  intros H. unfold placed. rewrite add_after_match.
  unfold outcome_of, instance_after in *.
  destruct (VersionOperator.match_ raiseError txt self) as [[o self'] l].
  cbn [fst snd] in H. subst o.
  destruct (insert_index_spec (VersionOperator.easyversion d)
              (VersionOperator.versions self) 0) as (i & Hi & Hpos).
  unfold result in Hi.
  destruct (VersionOperator.insert_index _ _ _) as [[j|e] l2]; cbn [fst] in Hi;
    [|discriminate]. inversion Hi. subst j. cbn [fst snd VersionOperator.versions].
  unfold VersionOperator.list_insert.
  destruct Hpos as [(-> & Hall) | (before & e & rest & E & -> & Hb & He)].
  - left. split; [exact Hall | reflexivity].
  - right. exists before, e, rest. split; [exact E|]. split; [exact Hb|].
    split; [exact He|]. rewrite E. cbn [Nat.add].
    rewrite firstn_app, Nat.sub_diag, firstn_all, skipn_app, Nat.sub_diag, skipn_all.
    cbn. now rewrite app_nil_r.
Qed.

Lemma add_position_witness :
  exists d,
    outcome_of (VersionOperator.match_ true "2.0_=="
                  (add_all true ["1.0_=="; "3.0_=="] (fresh_instance OPERATOR_keys)))
      = Ok (Some d) /\
    placed d
      (VersionOperator.versions
         (add_all true ["1.0_=="; "3.0_=="] (fresh_instance OPERATOR_keys)))
      (VersionOperator.versions
         (instance_after
            (VersionOperator.add true "2.0_=="
               (add_all true ["1.0_=="; "3.0_=="] (fresh_instance OPERATOR_keys))))).
Proof.
  eexists. split; [reflexivity|].
  apply (add_position true "2.0_=="
           (add_all true ["1.0_=="; "3.0_=="] (fresh_instance OPERATOR_keys))).
  reflexivity.
Defined.

(** ** [add] on a descending store *)

Lemma op_ge_trans (a b c : EasyVersion) :
  op_ge a b = true -> op_ge b c = true -> op_ge a c = true.
Proof.
  unfold op_ge, EasyVersion_cmp.
  destruct (LooseVersion.cmp_list (version a) (version b)) eqn:Eab; try discriminate;
    destruct (LooseVersion.cmp_list (version b) (version c)) eqn:Ebc; try discriminate;
    intros _ _.
  - apply cmp_list_eq in Eab. rewrite Eab, Ebc. reflexivity.
  - apply cmp_list_eq in Eab. rewrite Eab, Ebc. reflexivity.
  - apply cmp_list_eq in Ebc. rewrite <- Ebc, Eab. reflexivity.
  - rewrite (cmp_list_antisym (version b) (version a)) in Eab.
    rewrite (cmp_list_antisym (version c) (version b)) in Ebc.
    destruct (LooseVersion.cmp_list (version b) (version a)) eqn:Eba; try discriminate.
    destruct (LooseVersion.cmp_list (version c) (version b)) eqn:Ecb; try discriminate.
    rewrite (cmp_list_antisym (version c) (version a)).
    now rewrite (cmp_list_lt_trans _ _ _ Ecb Eba).
Qed.

Lemma op_lt_ge (a b : EasyVersion) : op_lt a b = negb (op_ge a b).
Proof. unfold op_lt, op_ge. destruct (EasyVersion_cmp a b); reflexivity. Qed.

Lemma descending_head_bounds (h : VersionOperator.ver_dict)
    (vs : list VersionOperator.ver_dict) :
  descending (h :: vs) = true ->
  forallb (fun e => op_ge (VersionOperator.easyversion h)
                      (VersionOperator.easyversion e)) vs = true.
Proof.
  revert h. induction vs as [|v vs IH]; intros h H; [reflexivity|].
  cbn [descending] in H. apply andb_prop in H as [Hhv Hd].
  cbn [forallb]. rewrite Hhv. cbn.
  pose proof (IH v Hd) as B. rewrite forallb_forall in B.
  apply forallb_forall. intros e He.
  exact (op_ge_trans _ _ _ Hhv (B e He)).
Qed.

Lemma insert_index_descending (new : EasyVersion)
    (vs : list VersionOperator.ver_dict) :
  descending vs = true ->
  result (VersionOperator.insert_index new 0 vs) = Ok 0%nat.
Proof.
  intros Hd.
  destruct (insert_index_spec new vs 0)
    as (i & Hi & [(-> & _) | (before & e & rest & -> & -> & Hb & He)]);
    [exact Hi|].
  destruct before as [|h before]; [exact Hi|]. exfalso.
  cbn [forallb] in Hb. apply andb_prop in Hb as [Hh _].
  unfold above in Hh, He. rewrite op_lt_ge in Hh, He.
  apply negb_true_iff in Hh, He. apply negb_false_iff in Hh.
  pose proof (descending_head_bounds h _ Hd) as B. rewrite forallb_forall in B.
  assert (Hhe : op_ge (VersionOperator.easyversion h) (VersionOperator.easyversion e) = true)
    by (apply B, in_or_app; right; now left).
  rewrite (op_ge_trans _ _ _ Hh Hhe) in He. discriminate.
Qed.

(** X6.  On a store that is descending, [add] always inserts at the
    front, whatever the new version is.  So the store stays descending
    exactly when the new version is at or above the first stored one (or
    the store was empty). *)
Theorem add_on_descending_store (raiseError : bool) (txt : string)
    (self : VersionOperator.instance) (d : VersionOperator.ver_dict) :
  descending (VersionOperator.versions self) = true ->
  outcome_of (VersionOperator.match_ raiseError txt self) = Ok (Some d) ->
  let after := VersionOperator.versions
                 (instance_after (VersionOperator.add raiseError txt self)) in
  after = d :: VersionOperator.versions self /\
  descending after =
    match VersionOperator.versions self with
    | [] => true
    | first :: _ =>
        op_ge (VersionOperator.easyversion d) (VersionOperator.easyversion first)
    end.
Proof.
  intros Hd H. cbv zeta. rewrite add_after_match.
  unfold outcome_of, instance_after in *.
  destruct (VersionOperator.match_ raiseError txt self) as [[o self'] l].
  cbn [fst snd] in H. subst o.
  pose proof (insert_index_descending (VersionOperator.easyversion d) _ Hd) as Hi.
  unfold result in Hi.
  destruct (VersionOperator.insert_index _ _ _) as [[j|e] l2]; cbn [fst] in Hi;
    [|discriminate]. inversion Hi. subst j. cbn [fst snd VersionOperator.versions].
  change (VersionOperator.list_insert 0 d (VersionOperator.versions self))
    with (d :: VersionOperator.versions self).
  split; [reflexivity|]. revert Hd.
  destruct (VersionOperator.versions self) as [|first rest]; [reflexivity|]. intros Hd.
  change (descending (d :: first :: rest))
    with (op_ge (VersionOperator.easyversion d) (VersionOperator.easyversion first)
          && descending (first :: rest)).
  rewrite Hd. apply andb_true_r.
Qed.

Lemma add_on_descending_store_witness :
  exists d,
    outcome_of (VersionOperator.match_ true "2.0_=="
                  (add_all true ["1.0_=="; "3.0_=="] (fresh_instance OPERATOR_keys)))
      = Ok (Some d) /\
    stored (instance_after
              (VersionOperator.add true "2.0_=="
                 (add_all true ["1.0_=="; "3.0_=="] (fresh_instance OPERATOR_keys))))
      = ["2.0_=="; "3.0_=="; "1.0_=="].
Proof.
  eexists. split; [reflexivity|].
  unfold stored.
  rewrite (proj1 (add_on_descending_store true "2.0_=="
                    (add_all true ["1.0_=="; "3.0_=="] (fresh_instance OPERATOR_keys))
                    _ eq_refl eq_refl)).
  reflexivity.
Defined.

(** ** What the store holds *)

Lemma add_all_constructed raiseError keys txts :
  forall self,
    constructed keys self -> constructed keys (add_all raiseError txts self).
Proof.
  induction txts as [|txt txts IH]; intros self Hc; [exact Hc|].
  unfold add_all. cbn [fold_left]. apply IH.
  unfold constructed. rewrite add_keeps_regexp. exact Hc.
Qed.

Lemma add_versions_cases raiseError txt self :
  match outcome_of (VersionOperator.match_ raiseError txt self) with
  | Ok (Some d) =>
      exists i,
        VersionOperator.versions
          (instance_after (VersionOperator.add raiseError txt self))
        = firstn i (VersionOperator.versions self)
          ++ d :: skipn i (VersionOperator.versions self)
  | _ =>
      VersionOperator.versions
        (instance_after (VersionOperator.add raiseError txt self))
      = VersionOperator.versions self
  end.
Proof.
  rewrite add_after_match. unfold outcome_of, instance_after.
  destruct (VersionOperator.match_ raiseError txt self) as [[[[d|]|e] self'] l];
    cbn [fst snd]; try reflexivity.
  destruct (VersionOperator.insert_index _ _ _) as [[j|e] l2] eqn:E.
  - exists j. reflexivity.
  - destruct (insert_index_spec (VersionOperator.easyversion d)
                (VersionOperator.versions self) 0) as (i & Hi & _).
    unfold result in Hi. rewrite E in Hi. discriminate Hi.
Qed.

Lemma add_keeps_entries raiseError txt self (P : VersionOperator.ver_dict -> Prop) :
  (forall d,
      outcome_of (VersionOperator.match_ raiseError txt self) = Ok (Some d) -> P d) ->
  Forall P (VersionOperator.versions self) ->
  Forall P (VersionOperator.versions
              (instance_after (VersionOperator.add raiseError txt self))).
Proof.
  intros Hnew Hold.
  pose proof (add_versions_cases raiseError txt self) as E.
  destruct (outcome_of (VersionOperator.match_ raiseError txt self)) as [[d|]|e];
    try (now rewrite E).
  destruct E as (i & ->).
  rewrite <- (firstn_skipn i (VersionOperator.versions self)) in Hold.
  apply Forall_app in Hold as [H1 H2].
  apply Forall_app. split; [exact H1|]. constructor; [now apply Hnew | exact H2].
Qed.

(** X13.  Whatever texts are added to a new instance, one call of [add]
    after the other, every entry of the store is an entry as [match] builds
    it for one of these texts: its text is one of those added and is not
    empty, its version is the version of that text, and its predicate is
    the one [_operator_check] returns for that text and operator.  The
    store holds no more entries than there were calls. *)
Theorem store_entries_invariant (raiseError : bool) (keys txts : list string) :
  let store := VersionOperator.versions
                 (add_all raiseError txts (fresh_instance keys)) in
  Forall (fun d => entry_ok raiseError d /\ In (VersionOperator.ver_str d) txts) store /\
  (length store <= length txts)%nat.
Proof.
  cbv zeta.
  assert (G : forall txts done self,
             constructed keys self ->
             Forall (fun d => entry_ok raiseError d
                              /\ In (VersionOperator.ver_str d) (done ++ txts))
               (VersionOperator.versions self) ->
             (length (VersionOperator.versions self) <= length done)%nat ->
             Forall (fun d => entry_ok raiseError d
                              /\ In (VersionOperator.ver_str d) (done ++ txts))
               (VersionOperator.versions (add_all raiseError txts self)) /\
             (length (VersionOperator.versions (add_all raiseError txts self))
              <= length (done ++ txts))%nat).
  { clear txts. induction txts as [|txt txts IH]; intros done self Hc Hall Hlen.
    - cbn. rewrite app_nil_r in *. auto.
    - unfold add_all. cbn [fold_left].
      fold (add_all raiseError txts
              (instance_after (VersionOperator.add raiseError txt self))).
      replace (done ++ txt :: txts) with ((done ++ [txt]) ++ txts)
        by (now rewrite <- app_assoc).
      apply IH.
      + unfold constructed. rewrite add_keeps_regexp. exact Hc.
      + apply add_keeps_entries.
        * intros d Hd.
          destruct (match_result_cases _ _ _ _ _ Hc Hd) as (Hne & _ & Hs & Hev & Hchk).
          unfold entry_ok. rewrite Hs. repeat split; auto.
          apply in_or_app. left. apply in_or_app. right. now left.
        * rewrite <- app_assoc. exact Hall.
      + pose proof (add_versions_cases raiseError txt self) as E.
        rewrite length_app. cbn.
        destruct (outcome_of (VersionOperator.match_ raiseError txt self)) as [[d|]|e];
          try (rewrite E; lia).
        destruct E as (i & ->). rewrite length_app. cbn.
        pose proof (firstn_skipn i (VersionOperator.versions self)) as F.
        apply (f_equal (@length _)) in F. rewrite length_app in F. lia. }
  apply (G txts [] (fresh_instance keys)); [reflexivity | constructor | cbn; lia].
Qed.

(** ** [_convert] and [_operator_check] *)

(** X8.  [_convert] raises in one case only, the empty text, where it
    raises [AttributeError] and logs nothing; without a text it returns
    the version of 0.0.0 and on every other text the version of that
    text. *)
Theorem convert_raises_on_empty_only (c : option string) :
  (c = Some "" /\
   VersionOperator._convert c
     = (Raise (AttributeError "EasyVersion instance has no attribute 'vstring'"), [])) \/
  (c <> Some "" /\
   result (VersionOperator._convert c)
     = Ok (parsed (match c with Some s => s | None => "0.0.0" end))).
Proof.
  destruct c as [[|a s]|].
  - left. split; reflexivity.
  - right. split; [discriminate | reflexivity].
  - right. split; [discriminate | reflexivity].
Qed.

(** X9.  [_operator_check] converts the version text before it looks at
    the operator: on the empty text it raises [AttributeError] whatever
    the operator.  On another text and an operator that is no key of
    [OPERATOR] ([None] included), it raises [EasyBuildError] when the
    logger's [error] raises; when it returns, the call succeeds and the
    predicate raises [NameError] on every candidate that converts, and the
    candidate's own error on the empty candidate. *)
Theorem operator_check_unknown_operator (ver_str : string) (operator : option string) :
  (forall raiseError,
      result (VersionOperator._operator_check raiseError (Some "") operator)
        = Raise (AttributeError "EasyVersion instance has no attribute 'vstring'")) /\
  (ver_str <> "" ->
   match operator with
   | Some symbol => Regex.lookup symbol VersionOperator.OPERATOR = None
   | None => True
   end ->
   (exists msg,
       result (VersionOperator._operator_check true (Some ver_str) operator)
         = Raise (EasyBuildError msg)) /\
   (exists chk,
       result (VersionOperator._operator_check false (Some ver_str) operator) = Ok chk) /\
   (forall c,
       verdict false ver_str operator c =
         match result (VersionOperator._convert c) with
         | Ok _ => Raise unbound_op
         | Raise e => Raise e
         end)).
Proof.
  split; [reflexivity|]. intros Hne Hop.
  unfold verdict, VersionOperator._operator_check.
  rewrite (convert_text _ Hne).
  destruct operator as [symbol|]; [rewrite Hop|]; cbn.
  all: split; [eexists; reflexivity|]; split; [eexists; reflexivity|].
  all: intros c; unfold result, bind;
    destruct (VersionOperator._convert c) as [[t|e] l]; reflexivity.
Qed.

Lemma operator_check_unknown_operator_witness :
  verdict false "1.0" (Some "=>") (Some "2.0") = Raise unbound_op.
Proof.
  exact (proj2 (proj2 (proj2 (operator_check_unknown_operator "1.0" (Some "=>"))
                         ltac:(discriminate) eq_refl))
           (Some "2.0")).
Defined.

Lemma verdict_known raiseError ver_str symbol f c :
  Regex.lookup symbol VersionOperator.OPERATOR = Some f ->
  ver_str <> "" ->
  c <> "" ->
  verdict raiseError ver_str (Some symbol) (Some c) = Ok (f (parsed ver_str) (parsed c)).
Proof.
  intros Hf Hv Hc.
  destruct (operator_check_known raiseError ver_str symbol f Hf Hv)
    as (chk & l & E & Hcand).
  unfold verdict, result. rewrite E. cbn [fst].
  fold (result (chk (Some c))). rewrite Hcand.
  unfold on_candidate. now rewrite (convert_text _ Hc).
Qed.

(** X10.  The six predicates built for one version text agree with each
    other on every candidate text: exactly one of [<], [==], [>] holds, [!=]
    is the negation of [==], [>=] of [<] and [<=] of [>]. *)
Theorem predicates_consistent (raiseError : bool) (ver_str c : string) :
  ver_str <> "" ->
  c <> "" ->
  exists lt eq gt,
    verdict raiseError ver_str (Some "<") (Some c) = Ok lt /\
    verdict raiseError ver_str (Some "==") (Some c) = Ok eq /\
    verdict raiseError ver_str (Some ">") (Some c) = Ok gt /\
    verdict raiseError ver_str (Some "!=") (Some c) = Ok (negb eq) /\
    verdict raiseError ver_str (Some ">=") (Some c) = Ok (negb lt) /\
    verdict raiseError ver_str (Some "<=") (Some c) = Ok (negb gt) /\
    ((lt = true /\ eq = false /\ gt = false) \/
     (lt = false /\ eq = true /\ gt = false) \/
     (lt = false /\ eq = false /\ gt = true)).
Proof.
  intros Hv Hc.
  exists (op_lt (parsed ver_str) (parsed c)), (op_eq (parsed ver_str) (parsed c)),
    (op_gt (parsed ver_str) (parsed c)).
  rewrite (verdict_known raiseError ver_str "<" op_lt c eq_refl Hv Hc).
  rewrite (verdict_known raiseError ver_str "==" op_eq c eq_refl Hv Hc).
  rewrite (verdict_known raiseError ver_str ">" op_gt c eq_refl Hv Hc).
  rewrite (verdict_known raiseError ver_str "!=" op_ne c eq_refl Hv Hc).
  rewrite (verdict_known raiseError ver_str ">=" op_ge c eq_refl Hv Hc).
  rewrite (verdict_known raiseError ver_str "<=" op_le c eq_refl Hv Hc).
  unfold op_lt, op_eq, op_gt, op_ne, op_ge, op_le.
  destruct (EasyVersion_cmp (parsed ver_str) (parsed c)); cbn; repeat split; auto.
Qed.

Lemma predicates_consistent_witness :
  exists lt eq gt,
    verdict true "1.10" (Some "<") (Some "1.9") = Ok lt /\
    verdict true "1.10" (Some "==") (Some "1.9") = Ok eq /\
    verdict true "1.10" (Some ">") (Some "1.9") = Ok gt /\
    verdict true "1.10" (Some "!=") (Some "1.9") = Ok (negb eq) /\
    verdict true "1.10" (Some ">=") (Some "1.9") = Ok (negb lt) /\
    verdict true "1.10" (Some "<=") (Some "1.9") = Ok (negb gt) /\
    ((lt = true /\ eq = false /\ gt = false) \/
     (lt = false /\ eq = true /\ gt = false) \/
     (lt = false /\ eq = false /\ gt = true)).
Proof.
  apply (predicates_consistent true "1.10" "1.9"); discriminate.
Defined.

(** ** The toolchain pattern *)

Section ToolchainPattern.

Import Regex.

Lemma reg_text_den_elim (keys : list string) pos pre rest c c' :
  den (VersionOperator.reg_text (map lit keys)) pos pre rest c c' ->
  exists tok,
    is_name tok = true /\
    ((pre = tok /\ c' = ("ver_str", tok) :: c) \/
     (exists op,
         (keys = [] \/ In op keys) /\
         pre = (tok ++ "_" ++ op)%string /\
         c' = ("operator", op) :: ("ver_str", tok) :: c)).
Proof.
  unfold VersionOperator.reg_text. fold name_pattern. cbn [den].
  intros (t1 & t2 & c3 & -> & (c4 & D1 & ->) & D2).
  apply name_den_elim in D1 as (Hname & ->).
  exists t1. split; [exact Hname|].
  destruct D2 as [(w1 & w2 & c7 & -> & Dsep & (c8 & Dops & ->)) | (-> & ->)].
  - apply (den_lit VersionOperator.SEPARATOR) in Dsep as (-> & ->).
    apply den_alts_lit in Dops as (-> & Hin).
    right. exists w2. auto.
  - left. now rewrite append_nil_r.
Qed.

Lemma reg_text_den_intro (keys : list string) pos tok rest c :
  is_name tok = true ->
  den (VersionOperator.reg_text (map lit keys)) pos tok rest c (("ver_str", tok) :: c) /\
  forall op,
    In op keys ->
    den (VersionOperator.reg_text (map lit keys)) pos (tok ++ "_" ++ op) rest c
      (("operator", op) :: ("ver_str", tok) :: c).
Proof.
  intros Hname. unfold VersionOperator.reg_text. fold name_pattern. cbn [den]. split.
  - exists tok, "", (("ver_str", tok) :: c). split; [now rewrite append_nil_r|].
    split; [|right; auto].
    exists c. split; [now apply name_den_intro | reflexivity].
  - intros op Hin.
    exists tok, ("_" ++ op)%string, (("ver_str", tok) :: c). split; [reflexivity|].
    split; [exists c; split; [now apply name_den_intro | reflexivity]|].
    left. exists "_", op, (("ver_str", tok) :: c). split; [reflexivity|].
    split; [apply (den_lit_intro "_")|].
    exists (("ver_str", tok) :: c). split; [now apply den_alts_lit_intro | reflexivity].
Qed.

Lemma group_names_toolchain_regexp (keys tc_names : list string) :
  group_names (toolchain_regexp keys tc_names)
    = ["toolchainname"; "toolchainversion"; "ver_str"; "operator"].
Proof.
  unfold toolchain_regexp, VersionOperator.reg_text. simpl.
  rewrite !group_names_alts_lit. reflexivity.
Qed.

Lemma den_alts_lit_names (names : list string) :
  forall pos pre rest c c',
    den (alts (map lit names)) pos pre rest c c' ->
    c' = c /\ (In pre names \/ (names = [] /\ pre = "")).
Proof.
  intros pos pre rest c c' D.
  destruct names as [|n names].
  - simpl in D. destruct D as (-> & ->). auto.
  - apply den_alts_lit in D as (-> & [E | Hin]); [discriminate E | auto].
Qed.

Lemma den_alts_lit_names_intro (names : list string) (name : string) :
  In name names \/ (names = [] /\ name = "") ->
  forall pos rest c, den (alts (map lit names)) pos name rest c c.
Proof.
  intros [Hin | (-> & ->)] pos rest c.
  - now apply den_alts_lit_intro.
  - simpl. auto.
Qed.

(** How a text on which the toolchain pattern matches is made up, and
    what the groups are. *)
Lemma toolchain_regexp_shape (keys tc_names : list string) (txt : string) (c : caps) :
  search_from (toolchain_regexp keys tc_names) 0 txt = Some c ->
  exists name nl,
    (In name tc_names \/ (tc_names = [] /\ name = "")) /\
    (nl = "" \/ nl = newline) /\
    lookup "toolchainname" c = Some name /\
    ((lookup "toolchainversion" c = None /\ txt = (name ++ nl)%string) \/
     (exists tok,
         is_name tok = true /\
         lookup "ver_str" c = Some tok /\
         ((lookup "toolchainversion" c = Some tok /\
           lookup "operator" c = None /\
           txt = (name ++ "_" ++ tok ++ nl)%string) \/
          (exists op,
              (keys = [] \/ In op keys) /\
              lookup "toolchainversion" c = Some (tok ++ "_" ++ op)%string /\
              lookup "operator" c = Some op /\
              txt = (name ++ "_" ++ tok ++ "_" ++ op ++ nl)%string)))).
Proof.
  unfold toolchain_regexp. rewrite search_from_start. intros M.
  apply rmatch_sound in M as (pre & rest & c' & -> & D & K).
  inversion K; subst c'. clear K.
  cbn [den] in D.
  destruct D as (p1 & p2 & c1 & -> & (_ & -> & ->) & D).
  destruct D as (q1 & q2 & c2 & -> & (c3 & Dname & ->) & D).
  destruct D as (r1 & r2 & c4 & -> & D & (-> & Hnl & ->)).
  apply den_alts_lit_names in Dname as (-> & Hin).
  exists q1, rest. split; [exact Hin|]. split; [exact Hnl|].
  destruct D as [(w1 & w2 & c7 & -> & Dsep & (c8 & Dv & ->)) | (-> & ->)].
  - apply (den_lit ToolchainOperator.SEPARATOR) in Dsep as (-> & ->).
    apply reg_text_den_elim in Dv as (tok & Hname & [(-> & ->) | (op & Hop & -> & ->)]).
    + split; [reflexivity|]. right. exists tok. split; [exact Hname|].
      split; [reflexivity|]. left. split; [reflexivity|]. split; [reflexivity|].
      cbn. repeat (rewrite ?append_nil_r, ?append_assoc; cbn [append]). reflexivity.
    + split; [reflexivity|]. right. exists tok. split; [exact Hname|].
      split; [reflexivity|]. right. exists op. split; [exact Hop|].
      split; [reflexivity|]. split; [reflexivity|].
      cbn. repeat (rewrite ?append_nil_r, ?append_assoc; cbn [append]). reflexivity.
  - split; [reflexivity|]. left. split; [reflexivity|].
    cbn. rewrite ?append_nil_r. reflexivity.
Qed.

Lemma toolchain_regexp_accepts (keys tc_names : list string) (txt : string) :
  toolchain_expression keys tc_names txt ->
  search_from (toolchain_regexp keys tc_names) 0 txt <> None.
Proof.
  intros (name & nl & Hin & Hnl & Ht) N.
  unfold toolchain_regexp in N. rewrite search_from_start in N.
  assert (Hname : forall pos rest c,
             den (Grp "toolchainname" (alts (map lit tc_names))) pos name rest c
               (("toolchainname", name) :: c)).
  { intros pos rest c. cbn [den]. exists c.
    split; [now apply den_alts_lit_names_intro | reflexivity]. }
  assert (Hend : forall v c',
             (txt = name ++ v ++ nl)%string ->
             (forall pos rest c,
                 den (Opt (Cat (lit ToolchainOperator.SEPARATOR)
                             (Grp "toolchainversion"
                                (VersionOperator.reg_text (map lit keys)))))
                   pos v rest c (c' c)) ->
             False).
  { intros v c' E Dv.
    pose proof (rmatch_none _ _ _ _ _ N (name ++ v) nl
                  (c' [("toolchainname", name)])) as K.
    cbv beta in K.
    assert (Some (c' [("toolchainname", name)]) = None); [|discriminate].
    apply K; [now rewrite E, !append_assoc|]. clear K N.
    cbn [den]. exists "", (name ++ v)%string, []. split; [reflexivity|].
    split; [auto|].
    exists name, v, [("toolchainname", name)]. split; [reflexivity|].
    split; [apply Hname|].
    exists v, "", (c' [("toolchainname", name)]). split; [now rewrite append_nil_r|].
    split; [apply Dv|]. cbn. auto. }
  destruct Ht as [Ht | (tok & Htok & [Ht | (op & Hop & Ht)])].
  - apply (Hend "" (fun c => c)); [exact Ht|].
    intros pos rest c. right. auto.
  - apply (Hend ("_" ++ tok)%string
             (fun c => ("toolchainversion", tok) :: ("ver_str", tok) :: c));
      [exact Ht|].
    intros pos rest c. left.
    exists "_", tok, c. split; [reflexivity|]. split; [apply (den_lit_intro "_")|].
    exists (("ver_str", tok) :: c). split; [|reflexivity].
    now apply reg_text_den_intro.
  - apply (Hend ("_" ++ tok ++ "_" ++ op)%string
             (fun c => ("toolchainversion", (tok ++ "_" ++ op)%string)
                       :: ("operator", op) :: ("ver_str", tok) :: c)).
    + rewrite Ht. cbn. now rewrite !append_assoc.
    + intros pos rest c. left.
      exists "_", (tok ++ "_" ++ op)%string, c. split; [reflexivity|].
      split; [apply (den_lit_intro "_")|].
      exists (("operator", op) :: ("ver_str", tok) :: c). split; [|reflexivity].
      now apply reg_text_den_intro.
Qed.

End ToolchainPattern.

Lemma toolchain_expression_keys (keys tc_names : list string) (txt : string) :
  Permutation keys OPERATOR_keys ->
  toolchain_expression keys tc_names txt
  <-> toolchain_expression OPERATOR_keys tc_names txt.
Proof.
  intros Hp.
  assert (G : forall k1 k2, (forall op, In op k1 -> In op k2) ->
                toolchain_expression k1 tc_names txt ->
                toolchain_expression k2 tc_names txt).
  { intros k1 k2 Hk (name & nl & Hin & Hnl & Ht).
    exists name, nl. split; [exact Hin|]. split; [exact Hnl|].
    destruct Ht as [Ht | (tok & Htok & [Ht | (op & Hop & Ht)])]; [now left | |];
      right; exists tok; (split; [exact Htok|]); [now left|].
    right. exists op. auto. }
  split; apply G; intros op.
  - apply (Permutation_in _ Hp).
  - apply (Permutation_in _ (Permutation_sym Hp)).
Qed.

(** X11.  The pattern that [ToolchainOperator.__init__] stores in
    [self.regexp] matches exactly the toolchain expressions: a name of the
    registry, then nothing or the separator and a version expression, and
    possibly one final newline.  In a match the group [toolchainname] is a
    name of the registry with which the text begins.  (The names are taken
    as plain texts.) *)
Theorem toolchain_pattern_matches_iff (raiseError : bool)
    (keys tc_names : list string) (txt : string) :
  Permutation keys OPERATOR_keys ->
  result (ToolchainOperator.init raiseError keys tc_names)
    = Ok [("regexp", toolchain_regexp keys tc_names)] /\
  (search_groups (toolchain_regexp keys tc_names) txt <> None
   <-> toolchain_expression OPERATOR_keys tc_names txt) /\
  (forall groups,
      search_groups (toolchain_regexp keys tc_names) txt = Some groups ->
      exists name rest,
        Regex.lookup "toolchainname" groups = Some (Some name) /\
        (In name tc_names \/ (tc_names = [] /\ name = "")) /\
        txt = (name ++ rest)%string).
Proof.
  intros Hp. split; [reflexivity|].
  assert (Hkeys : forall op, keys = [] \/ In op keys -> In op keys).
  { intros op [-> | Hin]; [|exact Hin].
    apply Permutation_length in Hp. discriminate Hp. }
  rewrite <- (toolchain_expression_keys keys tc_names txt Hp).
  unfold search_groups, Regex.search.
  destruct (Regex.search_from (toolchain_regexp keys tc_names) 0 txt) as [c|] eqn:S;
    cbn [option_map].
  - destruct (toolchain_regexp_shape keys tc_names txt c S)
      as (name & nl & Hin & Hnl & Hn & Hshape).
    split.
    + split; [intros _ | discriminate].
      exists name, nl. split; [exact Hin|]. split; [exact Hnl|].
      destruct Hshape
        as [(_ & Ht) | (tok & Htok & _ & [(_ & _ & Ht) | (op & Hop & _ & _ & Ht)])];
        [now left | |]; right; exists tok; (split; [exact Htok|]); [now left|].
      right. exists op. auto.
    + intros groups E. inversion E. subst groups. clear E.
      unfold Regex.groupdict. cbn [Regex.re Regex.groups].
      rewrite group_names_toolchain_regexp. cbn. rewrite Hn.
      destruct Hshape
        as [(_ & Ht) | (tok & _ & _ & [(_ & _ & Ht) | (op & _ & _ & _ & Ht)])];
        eexists; eexists; (split; [reflexivity|]); (split; [exact Hin|]); exact Ht.
  - split; [|intros groups E; discriminate E].
    split; [intros N; now exfalso|]. intros E _.
    apply toolchain_regexp_accepts in E. now apply E.
Qed.

Lemma toolchain_pattern_matches_iff_witness :
  search_groups (toolchain_regexp OPERATOR_keys ["goolf"; "intel"]) "intel_2016a_>=" <> None
  <-> toolchain_expression OPERATOR_keys ["goolf"; "intel"] "intel_2016a_>=".
Proof.
  apply (toolchain_pattern_matches_iff true OPERATOR_keys ["goolf"; "intel"]
           "intel_2016a_>=" (Permutation_refl _)).
Defined.

(** X12.  [toolchain_match] never returns: whatever the registry, the
    logger and the text, the instance that [__init__] builds has its
    pattern under the name [regexp], and the method, which reads
    [self.toolchain_regexp], raises [AttributeError] before it searches or
    logs. *)
Theorem toolchain_match_never_returns (raiseError : bool)
    (keys tc_names : list string) (txt : string) :
  exists self l,
    ToolchainOperator.init raiseError keys tc_names = (Ok self, l) /\
    Regex.lookup "regexp" self = Some (toolchain_regexp keys tc_names) /\
    Regex.lookup "toolchain_regexp" self = None /\
    ToolchainOperator.toolchain_match raiseError keys self txt
      = (Raise no_toolchain_regexp, []).
Proof.
  eexists. eexists. split; [reflexivity|]. repeat split.
Qed.

(** ** [set_configobj] on any configuration *)

Lemma visit_outcome raiseError (item : string * ConfigObjVersion.section) :
  ConfigObjVersion.visit raiseError (fst item) (snd item) =
    if passed_over item then (Ok tt, [])
    else (Raise (AttributeError ("'ConfigObjVersion' object has no attribute '"
                                 ++ first_lookup item ++ "'")%string), []).
Proof.
  destruct item as [name section]. unfold ConfigObjVersion.visit, passed_over, first_lookup.
  cbn [fst snd].
  destruct (name =? "DEFAULT")%string; [|reflexivity].
  destruct (ConfigObjVersion.has_key "version" section); [reflexivity|].
  destruct (ConfigObjVersion.has_key "toolchain" section); reflexivity.
Qed.

(** X14.  [set_configobj] returns only for a configuration in which every
    section is a [DEFAULT] section with neither [version] nor [toolchain].
    On the first other section it raises [AttributeError] for the method it
    looks up first on that section, none of which the class defines:
    [add_toolchain] for a section of another name, [add_version] for a
    [DEFAULT] with a version, [toolchain_match] for a [DEFAULT] with a
    toolchain only.  Nothing is logged in either case. *)
Theorem set_configobj_outcome (raiseError : bool) (items : ConfigObjVersion.configobj) :
  ConfigObjVersion.set_configobj raiseError items =
    match find (fun item => negb (passed_over item)) items with
    | None => (Ok tt, [])
    | Some item =>
        (Raise (AttributeError ("'ConfigObjVersion' object has no attribute '"
                                ++ first_lookup item ++ "'")%string), [])
    end.
Proof.
  induction items as [|[name section] items IH]; [reflexivity|].
  cbn [ConfigObjVersion.set_configobj find].
  change (ConfigObjVersion.visit raiseError name section)
    with (ConfigObjVersion.visit raiseError (fst (name, section)) (snd (name, section))).
  rewrite visit_outcome.
  destruct (passed_over (name, section)); cbn [negb].
  - rewrite IH. cbn.
    destruct (find (fun item => negb (passed_over item)) items); reflexivity.
  - reflexivity.
Qed.

(** ** Adding in ascending order *)

Lemma match_suffixed raiseError keys self txt :
  Permutation keys OPERATOR_keys ->
  constructed keys self ->
  suffixed txt ->
  exists d,
    outcome_of (VersionOperator.match_ raiseError txt self) = Ok (Some d) /\
    VersionOperator.ver_str d = txt /\
    VersionOperator.easyversion d = parsed txt.
Proof.
  intros Hp Hc (tok & OP & Hname & Hin & ->).
  destruct (operator_keys_lookup OP Hin) as (f & Hf).
  destruct (expression_groups keys tok Hp Hname) as (_ & G).
  destruct (G OP Hin) as (Hg & _).
  assert (Hne : (tok ++ "_" ++ OP)%string <> "") by (destruct tok; discriminate).
  destruct (match_of_some raiseError _ OP f Hf Hne) as (d & Hd & Hs & _ & Hev & _).
  exists d. unfold outcome_of.
  rewrite (match_unfold raiseError keys self _ Hc), Hg. cbn [fst]. auto.
Qed.

Lemma add_front_on_descending raiseError txt self d :
  descending (VersionOperator.versions self) = true ->
  outcome_of (VersionOperator.match_ raiseError txt self) = Ok (Some d) ->
  VersionOperator.versions (instance_after (VersionOperator.add raiseError txt self))
    = d :: VersionOperator.versions self.
Proof.
  intros Hd H. rewrite add_after_match.
  unfold outcome_of, instance_after in *.
  destruct (VersionOperator.match_ raiseError txt self) as [[o self'] l].
  cbn [fst snd] in H. subst o.
  pose proof (insert_index_descending (VersionOperator.easyversion d) _ Hd) as Hi.
  unfold result in Hi.
  destruct (VersionOperator.insert_index _ _ _) as [[j|e] l2]; cbn [fst] in Hi;
    [|discriminate]. inversion Hi. reflexivity.
Qed.

Lemma ascending_adds raiseError keys :
  Permutation keys OPERATOR_keys ->
  forall txts self,
    constructed keys self ->
    descending (VersionOperator.versions self) = true ->
    match VersionOperator.versions self, txts with
    | first :: _, t :: _ => op_ge (parsed t) (VersionOperator.easyversion first) = true
    | _, _ => True
    end ->
    Forall suffixed txts ->
    ascending txts = true ->
    stored (add_all raiseError txts self) = rev txts ++ stored self /\
    descending (VersionOperator.versions (add_all raiseError txts self)) = true.
Proof.
  intros Hp. induction txts as [|txt txts IH]; intros self Hc Hd Hhead Hall Hasc.
  - cbn. auto.
  - inversion Hall as [|? ? Htxt Hrest]. subst.
    destruct (match_suffixed raiseError keys self txt Hp Hc Htxt) as (d & Hm & Hs & Hev).
    pose proof (add_front_on_descending raiseError txt self d Hd Hm) as Hafter.
    unfold add_all. cbn [fold_left].
    fold (add_all raiseError txts
            (instance_after (VersionOperator.add raiseError txt self))).
    destruct (IH (instance_after (VersionOperator.add raiseError txt self))) as (E & D).
    + unfold constructed. rewrite add_keeps_regexp. exact Hc.
    + rewrite Hafter.
      destruct (VersionOperator.versions self) as [|first rest] eqn:Ev; [reflexivity|].
      change (descending (d :: first :: rest))
        with (op_ge (VersionOperator.easyversion d) (VersionOperator.easyversion first)
              && descending (first :: rest)).
      rewrite Hd, Hev, Hhead. reflexivity.
    + rewrite Hafter. destruct txts as [|t2 txts]; [exact I|].
      rewrite Hev. cbn [ascending] in Hasc. now apply andb_prop in Hasc as [H _].
    + exact Hrest.
    + destruct txts as [|t2 txts]; [reflexivity|].
      cbn [ascending] in Hasc. now apply andb_prop in Hasc as [_ H].
    + split; [|exact D]. rewrite E. unfold stored. rewrite Hafter.
      cbn [map rev]. rewrite Hs, <- app_assoc. reflexivity.
Qed.

(** X7.  When texts with an operator suffix are added to a new instance
    in ascending order of their versions, the store ends as these texts in
    reverse order, and it is descending. *)
Theorem adds_in_ascending_order (raiseError : bool) (keys txts : list string) :
  Permutation keys OPERATOR_keys ->
  Forall suffixed txts ->
  ascending txts = true ->
  stored (add_all raiseError txts (fresh_instance keys)) = rev txts /\
  descending (VersionOperator.versions
                (add_all raiseError txts (fresh_instance keys))) = true.
Proof.
  intros Hp Hall Hasc.
  destruct (ascending_adds raiseError keys Hp txts (fresh_instance keys))
    as (E & D); try reflexivity; try assumption; try exact I.
  split; [|exact D]. rewrite E. cbn. apply app_nil_r.
Qed.

Lemma adds_in_ascending_order_witness :
  stored (add_all true ["1.0_=="; "2.0_>"; "3.0_<="] (fresh_instance OPERATOR_keys))
    = rev ["1.0_=="; "2.0_>"; "3.0_<="] /\
  descending (VersionOperator.versions
                (add_all true ["1.0_=="; "2.0_>"; "3.0_<="]
                   (fresh_instance OPERATOR_keys))) = true.
Proof.
  apply (adds_in_ascending_order true OPERATOR_keys ["1.0_=="; "2.0_>"; "3.0_<="]
           (Permutation_refl _)).
  - repeat constructor.
    + exists "1.0", "==". simpl. tauto.
    + exists "2.0", ">". simpl. tauto.
    + exists "3.0", "<=". simpl. tauto.
  - reflexivity.
Defined.

(** ** [__init__] with a text *)

Lemma init_unfold raiseError keys (txt : string) :
  VersionOperator.init raiseError keys (Some txt) =
    match VersionOperator.add raiseError txt (fresh_instance keys) with
    | (Ok _, self, l) =>
        (Ok self,
         mkEntry DEBUG "version_operator pattern '{...}' (begin_end: True)" :: l)
    | (Raise e, _, l) =>
        (Raise e,
         mkEntry DEBUG "version_operator pattern '{...}' (begin_end: True)" :: l)
    end.
Proof.
  unfold VersionOperator.init, VersionOperator._operator_regexp, fresh_instance,
    version_regexp. cbn.
  destruct (VersionOperator.add raiseError txt _) as [[[u|e] self] l]; reflexivity.
Qed.

(** X15.  [VersionOperator()] has an empty store.  [VersionOperator(txt)]
    is that instance after [add(txt)]: for a version text followed by the
    separator and one of the six symbols the store holds that one text; for
    a text that is no version expression the constructor raises when the
    logger's [error] raises, and returns an instance with an empty store
    when it does not. *)
Theorem init_store (raiseError : bool) (keys : list string) :
  Permutation keys OPERATOR_keys ->
  result (VersionOperator.init raiseError keys None) = Ok (fresh_instance keys) /\
  (forall txt,
      suffixed txt ->
      exists self,
        result (VersionOperator.init raiseError keys (Some txt)) = Ok self /\
        constructed keys self /\
        stored self = [txt]) /\
  (forall txt,
      ~ version_expression OPERATOR_keys txt ->
      result (VersionOperator.init true keys (Some txt))
        = Raise (EasyBuildError ("No version_match for version expression " ++ txt)%string) /\
      result (VersionOperator.init false keys (Some txt)) = Ok (fresh_instance keys)).
Proof.
  intros Hp. split; [reflexivity|]. split.
  - intros txt Htxt.
    destruct (match_suffixed raiseError keys (fresh_instance keys) txt Hp eq_refl Htxt)
      as (d & Hm & Hs & _).
    pose proof (add_front_on_descending raiseError txt (fresh_instance keys) d
                  eq_refl Hm) as Hafter.
    pose proof (add_keeps_regexp raiseError txt (fresh_instance keys)) as Hre.
    rewrite init_unfold. rewrite add_after_match in *.
    unfold outcome_of, instance_after in *.
    destruct (VersionOperator.match_ raiseError txt (fresh_instance keys))
      as [[o self'] l]. cbn [fst snd] in Hm. subst o.
    destruct (VersionOperator.insert_index _ _ _) as [[j|e] l2]; cbn [fst snd] in *.
    + eexists. split; [reflexivity|]. split.
      * unfold constructed. cbn [VersionOperator.regexp]. reflexivity.
      * unfold stored. cbn [VersionOperator.versions] in *. rewrite Hafter.
        cbn. now rewrite Hs.
    + cbn in Hafter. discriminate Hafter.
  - intros txt Hn.
    assert (S : Regex.search_from (version_regexp keys) 0 txt = None).
    { destruct (Regex.search_from (version_regexp keys) 0 txt) as [c|] eqn:S;
        [|reflexivity].
      exfalso. apply Hn. exact (shape_is_expression keys txt c Hp S). }
    rewrite !init_unfold, !add_after_match.
    rewrite !(match_unfold _ keys (fresh_instance keys) txt eq_refl).
    unfold operator_group. rewrite S. cbn. auto.
Qed.

Lemma init_store_witness :
  exists self,
    result (VersionOperator.init true OPERATOR_keys (Some "2016a_>=")) = Ok self /\
    constructed OPERATOR_keys self /\
    stored self = ["2016a_>="].
Proof.
  apply (proj1 (proj2 (init_store true OPERATOR_keys (Permutation_refl _)))).
  exists "2016a", ">=". simpl. tauto.
Defined.

(** ** The version of a dotted text *)

Section Dotted.

Import LooseVersion.


End Dotted.


